(** * prometheus-cachethq: the Alertmanager webhook handler of webserver.go

    A shallow embedding of [SubmitAlert] (src/webserver.go) and the
    properties of its reconciliation logic.

    - Go maps are stdpp [gmap]s; a lookup of a missing key yields the zero
      value, written [default z (m !! k)].
    - Go's [int] is [Z]: the handler performs no arithmetic on integers, it
      only compares and forwards them.
    - Go's [error] is the message that [err.Error()] returns; a nil error is
      [None].  Functions returning [(value, err)] return a pair here too.
    - The CachetHQ client ([config.Cachet]), the [time] package and the
      constant [LOG_DEBUG] are declared outside webserver.go: the handler is
      parameterised over them.
    - The handler runs in a monad that threads the state of the status page
      and records every client call (with the error it returned) and every
      log line, in program order. *)

From Stdlib Require Import QArith Ascii.
From stdpp Require Import gmap strings pretty list fin_maps.

Open Scope Z_scope.

(** ** Data model (webserver.go, lines 34-51) *)

Abbreviation error := string (only parsing).

Record PrometheusAlertDetail := {
  Labels : gmap string string;
  Annotations : gmap string string;
  StartAt : string;
  EndsAt : string
}.

Record PrometheusAlert := {
  Version : string;
  GroupKey : string;
  Status : string;
  Receiver : string;
  GroupLabels : gmap string string;
  CommonLabels : gmap string string;
  CommonAnnotations : gmap string string;
  ExternalURL : string;
  Alerts : list PrometheusAlertDetail
}.

(** The fields of a CachetHQ incident that the handler reads.  The source's
    [Status] is [IncidentStatus] here: [Status] already names the field of
    [PrometheusAlert]. *)
Record Incident := {
  Id : Z;
  IncidentStatus : Z;
  CreatedAt : string;
  UpdatedAt : string
}.

(** The fields of [PrometheusCachetConfig] that the handler reads; the
    [Cachet] field is the client interface below. *)
Record PrometheusCachetConfig (LogLevelT : Type) := {
  PrometheusToken : string;
  LogLevel : LogLevelT;
  LabelName : string;
  SquashIncident : bool
}.
Arguments PrometheusToken {_} _.
Arguments LogLevel {_} _.
Arguments LabelName {_} _.
Arguments SquashIncident {_} _.

(** What the handler uses of [*gin.Context]: the request headers and the
    outcome of [c.ShouldBindJSON(&alerts)]. *)
Record Context := {
  GetHeader : string → string;
  ShouldBindJSON : PrometheusAlert * option error
}.

(** [c.JSON(code, gin.H{...})] *)
Inductive Response := JSON (code : Z) (obj : gmap string string).

Definition StatusOK : Z := 200.
Definition StatusBadRequest : Z := 400.

(** ** External interfaces *)

(** The methods of [config.Cachet], as transitions of the status page's
    state [B]. *)
Class CachetClient (B : Type) := {
  ListComponents : B → (gmap string Z * option error) * B;
  SearchIncidents : Z → B → (list Incident * option error) * B;
  CreateIncident : string → Z → Z → Z → B → option error * B;
  UpdateIncident : string → Z → Z → Z → string → B → option error * B;
  ReadIncident : Z → B → (Incident * option error) * B
}.

(** What the handler uses of Go's [time] package and of the conversion
    [int(float64)]. *)
Class GoTime := {
  time_Time : Type;
  time_Duration : Type;
  float64 : Type;
  time_Parse : string → string → time_Time * option error;
  Time_Sub : time_Time → time_Time → time_Duration;
  Duration_Minutes : time_Duration → float64;
  int_of_float64 : float64 → Z
}.

(** ** Recorded effects *)

Inductive Call :=
| CallListComponents
| CallSearchIncidents (componentID : Z)
| CallCreateIncident (name : string) (componentID status componentStatus : Z)
| CallUpdateIncident (name : string) (componentID incidentID status : Z)
    (message : string)
| CallReadIncident (incidentID : Z).

Inductive Effect :=
| Called (c : Call) (err : option error)
| Logged (args : list string).

Definition Trace := list Effect.

(** ** Formatting ([fmt.Sprintf]) *)

Definition newline : string := String (Ascii.ascii_of_N 10) EmptyString.

(** [fmt.Sprintf("Bearer %s", token)] *)
Definition Sprintf_bearer (token : string) : string := "Bearer " +:+ token.

(** [fmt.Sprintf("Prometheus flagged service %s as up", name)] *)
Definition Sprintf_up (name : string) : string :=
  "Prometheus flagged service " +:+ name +:+ " as up".

(** [fmt.Sprintf("Prometheus flagged service %s as up (service was down for %d minutes)", name, minutes)] *)
Definition Sprintf_up_minutes (name : string) (minutes : Z) : string :=
  "Prometheus flagged service " +:+ name +:+ " as up (service was down for "
    +:+ pretty minutes +:+ " minutes)".

(** [fmt.Sprintf("No incident found for component %d\n", componentID)] *)
Definition Sprintf_no_incident (componentID : Z) : string :=
  "No incident found for component " +:+ pretty componentID +:+ newline.

(** [gin.H{"error": msg}] with status 400, and the final [gin.H{"status": "OK"}]. *)
Definition error_response (msg : string) : Response :=
  JSON StatusBadRequest {[ "error" := msg ]}.

Definition ok_response : Response :=
  JSON StatusOK {[ "status" := "OK" ]}.

(** ** The handler monad

    A computation takes the state of the status page, and returns its result,
    the new state and the effects it produced, oldest first. *)

Section Monad.
Context {B : Type}.

Definition M (A : Type) : Type := B → A * B * Trace.

Definition ret {A} (a : A) : M A := λ b, (a, b, []).

Definition bind {A A'} (m : M A) (k : A → M A') : M A' :=
  λ b, let '(a, b1, t1) := m b in
       let '(a', b2, t2) := k a b1 in
       (a', b2, t1 ++ t2).

Definition log_Println (args : list string) : M unit :=
  λ b, (tt, b, [Logged args]).
End Monad.
Arguments M : clear implicits.

#[global] Instance M_ret {B} : MRet (M B) := @ret B.
#[global] Instance M_bind {B} : MBind (M B) := λ A A' k m, bind m k.

(** ** SubmitAlert (webserver.go, lines 54-167) *)

Section Handler.
Context {B : Type} {cachet : CachetClient B} {gotime : GoTime}.
Context {LogLevelT : Type} {eqdec : EqDecision LogLevelT} (LOG_DEBUG : LogLevelT).

Abbreviation Config := (PrometheusCachetConfig LogLevelT).

(** The client's methods, recorded. *)
Definition Cachet_ListComponents : M B (gmap string Z * option error) :=
  λ b, let '(r, b') := ListComponents b in
       (r, b', [Called CallListComponents r.2]).

Definition Cachet_SearchIncidents (componentID : Z)
    : M B (list Incident * option error) :=
  λ b, let '(r, b') := SearchIncidents componentID b in
       (r, b', [Called (CallSearchIncidents componentID) r.2]).

Definition Cachet_CreateIncident (name : string)
    (componentID status componentStatus : Z) : M B (option error) :=
  λ b, let '(r, b') := CreateIncident name componentID status componentStatus b in
       (r, b', [Called (CallCreateIncident name componentID status componentStatus) r]).

Definition Cachet_UpdateIncident (name : string)
    (componentID incidentID status : Z) (message : string)
    : M B (option error) :=
  λ b, let '(r, b') := UpdateIncident name componentID incidentID status message b in
       (r, b', [Called (CallUpdateIncident name componentID incidentID status message) r]).

Definition Cachet_ReadIncident (incidentID : Z) : M B (Incident * option error) :=
  λ b, let '(r, b') := ReadIncident incidentID b in
       (r, b', [Called (CallReadIncident incidentID) r.2]).

(** [if config.LogLevel == LOG_DEBUG { log.Println(args...) }] *)
Definition debug_Println (config : Config) (args : list string) : M B unit :=
  if decide (LogLevel config = LOG_DEBUG) then log_Println args else mret tt.

(** [alert.Labels[config.LabelName]]: a missing key reads as the empty string. *)
Definition label_value (config : Config) (alert : PrometheusAlertDetail) : string :=
  default EmptyString (Labels alert !! LabelName config).

(** Lines 71-76. *)
Definition target_status (alerts : PrometheusAlert) : Z * Z :=
  let status := 1 in
  let componentStatus := 1 in
  if decide (Status alerts = "firing") then (4, 4) else (status, componentStatus).

(** Each of the three blocks below returns [Some r] when the handler has
    answered [r] and returned, and [None] when the loop goes on. *)

(** Lines 98-112: squash mode, [status != 1]. *)
Definition squash_firing (config : Config) (status componentStatus : Z)
    (alert : PrometheusAlertDetail) (componentID : Z) : M B (option Response) :=
  '(incidents, err) ← Cachet_SearchIncidents componentID;
  match err with
  | Some e => mret (Some (error_response e))
  | None =>
    if match incidents with
       | [] => true
       | first :: _ => bool_decide (IncidentStatus first = 4)
       end
    then
      err ← Cachet_CreateIncident (label_value config alert) componentID
               status componentStatus;
      match err with
      | Some e => debug_Println config [e];; mret (Some (error_response e))
      | None => mret None
      end
    else mret None
  end.

(** Lines 115-143: squash mode, [status == 1].  [len(incidents) > 0]
    followed by [incidents[0]] is the match on a non-empty list.  The block
    is written over the [else] branch of its inner [if err == nil] (lines
    132-135), which is supplied just below. *)
Definition squash_resolved_with (inner_else : error → M B (option Response))
    (config : Config) (status : Z)
    (alert : PrometheusAlertDetail) (componentID : Z) : M B (option Response) :=
  '(incidents, err) ← Cachet_SearchIncidents componentID;
  match err with
  | None =>
    match incidents with
    | first :: _ =>
      match err with
      | None =>
        Cachet_UpdateIncident (label_value config alert) componentID (Id first)
          status (Sprintf_up (label_value config alert));;
        let incidentID := Id first in
        let componentName := label_value config alert in
        '(incident, err) ← Cachet_ReadIncident incidentID;
        match err with
        | None =>
          let layout := "2006-01-02 15:04:05" in
          let '(createdAt, err1) := time_Parse layout (CreatedAt incident) in
          let '(updatedAt, err2) := time_Parse layout (UpdatedAt incident) in
          if bool_decide (err1 = None) && bool_decide (err2 = None) then
            Cachet_UpdateIncident componentName componentID incidentID status
              (Sprintf_up_minutes componentName
                 (int_of_float64 (Duration_Minutes (Time_Sub updatedAt createdAt))));;
            mret None
          else mret None
        | Some _ => mret None
        end
      | Some e => inner_else e
      end
    | [] => mret (Some (error_response (Sprintf_no_incident componentID)))
    end
  | Some e => mret (Some (error_response e))
  end.

(** Lines 132-135: [c.JSON(http.StatusBadRequest, gin.H{"error": err.Error()}); return] *)
Definition squash_resolved : Config → Z → PrometheusAlertDetail → Z → M B (option Response) :=
  squash_resolved_with (λ e, mret (Some (error_response e))).

(** Lines 146-152: no squashing. *)
Definition no_squash (config : Config) (status componentStatus : Z)
    (alert : PrometheusAlertDetail) (componentID : Z) : M B (option Response) :=
  err ← Cachet_CreateIncident (label_value config alert) componentID
           status componentStatus;
  match err with
  | Some e => debug_Println config [e];; mret (Some (error_response e))
  | None => mret None
  end.

(** Lines 95-153: what is done for a component seen for the first time. *)
Definition fire (config : Config) (status componentStatus : Z)
    (alert : PrometheusAlertDetail) (componentID : Z) : M B (option Response) :=
  if SquashIncident config then
    if bool_decide (status ≠ 1)
    then squash_firing config status componentStatus alert componentID
    else squash_resolved config status alert componentID
  else no_squash config status componentStatus alert componentID.

(** Lines 91-155: the body of the loop, for one alert.  It returns the
    answer, if any, and the updated [alreadyFired] map. *)
Definition alert_body (config : Config) (status componentStatus : Z)
    (components : gmap string Z) (alert : PrometheusAlertDetail)
    (alreadyFired : gmap Z Z) : M B (option Response * gmap Z Z) :=
  match components !! label_value config alert with
  | Some componentID =>
    if bool_decide (default 0 (alreadyFired !! componentID) = 0) then
      let alreadyFired := <[componentID := 1]> alreadyFired in
      r ← fire config status componentStatus alert componentID;
      mret (r, alreadyFired)
    else mret (None, alreadyFired)
  | None => mret (None, alreadyFired)
  end.

(** Lines 89-156: [for _, alert := range alerts.Alerts], left as soon as an
    iteration has answered. *)
Fixpoint alerts_loop (config : Config) (status componentStatus : Z)
    (components : gmap string Z) (alerts : list PrometheusAlertDetail)
    (alreadyFired : gmap Z Z) : M B (option Response * gmap Z Z) :=
  match alerts with
  | [] => mret (None, alreadyFired)
  | alert :: rest =>
    '(r, alreadyFired) ← alert_body config status componentStatus components
                            alert alreadyFired;
    match r with
    | Some resp => mret (Some resp, alreadyFired)
    | None => alerts_loop config status componentStatus components rest alreadyFired
    end
  end.

Definition SubmitAlert (c : Context) (config : Config) : M B Response :=
  let bearer := GetHeader c "Authorization" in
  if bool_decide (PrometheusToken config ≠ EmptyString)
     && bool_decide (bearer ≠ Sprintf_bearer (PrometheusToken config))
  then
    debug_Println config ["wrong Authorization header:"; bearer];;
    mret (error_response "wrong Authorization header")
  else
    let '(alerts, err) := ShouldBindJSON c in
    match err with
    | None =>
      let '(status, componentStatus) := target_status alerts in
      '(components, err) ← Cachet_ListComponents;
      match err with
      | Some e => debug_Println config [e];; mret (error_response e)
      | None =>
        let alreadyFired : gmap Z Z := ∅ in
        '(r, _) ← alerts_loop config status componentStatus components
                     (Alerts alerts) alreadyFired;
        match r with
        | Some resp => ret resp
        | None => ret ok_response
        end
      end
    | Some e => debug_Println config [e];; mret (error_response e)
    end.

End Handler.

(** ** Reference instances of the external interfaces

  The theorems below hold for every client and every [time] package.  To
  run the handler on concrete requests we also give one instance of each:
  an in-memory status page with injectable faults, and a clock for
  second-resolution timestamps. *)

Module Page.

(** Which client methods fail, and with which error. *)
Record Faults := {
  list_err : option error;
  search_err : option error;
  create_err : option error;
  update_err : option error;
  read_err : option error
}.

Definition no_faults : Faults :=
  {| list_err := None; search_err := None; create_err := None;
     update_err := None; read_err := None |}.

(** The fixed part of a status page: its components, the faults, and the
    timestamps it gives to created and to updated incidents. *)
Record Setup := {
  directory : gmap string Z;
  faults : Faults;
  created_stamp : string;
  updated_stamp : string
}.

(** The state: the incidents with their component, newest first. *)
Definition State := list (Z * Incident).

Definition no_incident : Incident :=
  {| Id := 0; IncidentStatus := 0; CreatedAt := EmptyString; UpdatedAt := EmptyString |}.

Definition list_components (s : Setup) (b : State)
    : (gmap string Z * option error) * State :=
  match list_err (faults s) with
  | Some e => ((∅, Some e), b)
  | None => ((directory s, None), b)
  end.

Definition search_incidents (s : Setup) (componentID : Z) (b : State)
    : (list Incident * option error) * State :=
  match search_err (faults s) with
  | Some e => (([], Some e), b)
  | None => (((filter (λ p, p.1 = componentID) b).*2, None), b)
  end.

Definition create_incident (s : Setup) (name : string)
    (componentID status componentStatus : Z) (b : State)
    : option error * State :=
  match create_err (faults s) with
  | Some e => (Some e, b)
  | None =>
    (None,
     (componentID,
      {| Id := Z.of_nat (length b) + 1; IncidentStatus := status;
         CreatedAt := created_stamp s; UpdatedAt := created_stamp s |}) :: b)
  end.

Definition update_incident (s : Setup) (name : string)
    (componentID incidentID status : Z) (message : string) (b : State)
    : option error * State :=
  match update_err (faults s) with
  | Some e => (Some e, b)
  | None =>
    (None,
     (λ p : Z * Incident,
        if bool_decide (Id p.2 = incidentID)
        then (p.1, {| Id := Id p.2; IncidentStatus := status;
                      CreatedAt := CreatedAt p.2;
                      UpdatedAt := updated_stamp s |})
        else p) <$> b)
  end.

Definition read_incident (s : Setup) (incidentID : Z) (b : State)
    : (Incident * option error) * State :=
  match read_err (faults s) with
  | Some e => ((no_incident, Some e), b)
  | None =>
    match filter (λ p, Id p.2 = incidentID) b with
    | p :: _ => ((p.2, None), b)
    | [] => ((no_incident, Some "incident not found"), b)
    end
  end.

Definition client (s : Setup) : CachetClient State :=
  {| ListComponents := list_components s;
     SearchIncidents := search_incidents s;
     CreateIncident := create_incident s;
     UpdateIncident := update_incident s;
     ReadIncident := read_incident s |}.

End Page.

Module Clock.

Definition digit (c : ascii) : option Z :=
  let n := Z.of_N (Ascii.N_of_ascii c) in
  if bool_decide (48 ≤ n ≤ 57) then Some (n - 48) else None.

Fixpoint number (acc : Z) (cs : list ascii) : option Z :=
  match cs with
  | [] => Some acc
  | c :: cs => d ← digit c; number (10 * acc + d) cs
  end.

Definition leap (y : Z) : bool :=
  bool_decide (y mod 4 = 0) &&
  (negb (bool_decide (y mod 100 = 0)) || bool_decide (y mod 400 = 0)).

Definition days_in (y m : Z) : Z :=
  if bool_decide (m = 2) then (if leap y then 29 else 28)
  else if bool_decide (m = 4 ∨ m = 6 ∨ m = 9 ∨ m = 11) then 30 else 31.

(** Days since 1970-01-01 in the proleptic Gregorian calendar. *)
Definition days_from_civil (y m d : Z) : Z :=
  let y' := if bool_decide (m ≤ 2) then y - 1 else y in
  let era := y' `div` 400 in
  let yoe := y' - era * 400 in
  let doy := (153 * (if bool_decide (m ≤ 2) then m + 9 else m - 3) + 2) `div` 5 + d - 1 in
  let doe := yoe * 365 + yoe `div` 4 - yoe `div` 100 + doy in
  era * 146097 + doe - 719468.

(** Seconds since the epoch for a ["YYYY-MM-DD HH:MM:SS"] timestamp. *)
Definition seconds (value : string) : option Z :=
  match String.list_ascii_of_string value with
  | [y1; y2; y3; y4; "-"%char; m1; m2; "-"%char; d1; d2; " "%char;
     h1; h2; ":"%char; n1; n2; ":"%char; s1; s2] =>
    y ← number 0 [y1; y2; y3; y4];
    m ← number 0 [m1; m2];
    d ← number 0 [d1; d2];
    h ← number 0 [h1; h2];
    n ← number 0 [n1; n2];
    s ← number 0 [s1; s2];
    if bool_decide (1 ≤ m ≤ 12) && bool_decide (1 ≤ d ≤ days_in y m)
       && bool_decide (h < 24) && bool_decide (n < 60) && bool_decide (s < 60)
    then Some (days_from_civil y m d * 86400 + h * 3600 + n * 60 + s)
    else None
  | _ => None
  end.

Definition parse (layout value : string) : Z * option error :=
  if bool_decide (layout = "2006-01-02 15:04:05") then
    match seconds value with
    | Some t => (t, None)
    | None => (0, Some ("parsing time " +:+ value))
    end
  else (0, Some "layout not supported").

Definition maxDuration : Z := 2 ^ 63 - 1.
Definition minDuration : Z := - 2 ^ 63.

(** [t.Sub(u)]: nanoseconds, saturating at the bounds of [int64]. *)
Definition sub (t u : Z) : Z :=
  minDuration `max` (maxDuration `min` ((t - u) * 1000000000)).

(** [d.Minutes()], in exact arithmetic. *)
Definition minutes (d : Z) : Q := Qmake d 60000000000.

(** [int(f)]: truncation towards zero. *)
Definition truncate (f : Q) : Z := Qnum f `quot` Z.pos (Qden f).

Definition go_time : GoTime :=
  {| time_Time := Z; time_Duration := Z; float64 := Q;
     time_Parse := parse; Time_Sub := sub;
     Duration_Minutes := minutes; int_of_float64 := truncate |}.

End Clock.


(** ** Requests used in the examples

    One label key, ["service"]; the directory of the scenarios of the spec. *)

Module Fixture.

Definition config (squash : bool) : PrometheusCachetConfig bool :=
  {| PrometheusToken := EmptyString; LogLevel := false;
     LabelName := "service"; SquashIncident := squash |}.

Definition alert (name : string) : PrometheusAlertDetail :=
  {| Labels := {[ "service" := name ]}; Annotations := ∅;
     StartAt := EmptyString; EndsAt := EmptyString |}.

Definition unlabelled : PrometheusAlertDetail :=
  {| Labels := {[ "severity" := "page" ]}; Annotations := ∅;
     StartAt := EmptyString; EndsAt := EmptyString |}.

Definition group (status : string) (alerts : list PrometheusAlertDetail)
    : PrometheusAlert :=
  {| Version := "4"; GroupKey := EmptyString; Status := status;
     Receiver := EmptyString; GroupLabels := ∅; CommonLabels := ∅;
     CommonAnnotations := ∅; ExternalURL := EmptyString; Alerts := alerts |}.

Definition request (alerts : PrometheusAlert) : Context :=
  {| GetHeader := λ _, EmptyString; ShouldBindJSON := (alerts, None) |}.

Definition page (directory : gmap string Z) (faults : Page.Faults) : Page.Setup :=
  {| Page.directory := directory; Page.faults := faults;
     Page.created_stamp := "2024-01-01 10:00:00";
     Page.updated_stamp := "2024-01-01 10:42:30" |}.

Definition api : gmap string Z := {[ "api" := 42 ]}.


(** A directory that has a component named by the empty string. *)
Definition unnamed : gmap string Z := {[ EmptyString := 7 ]}.

Definition healthy : Page.Setup := page api Page.no_faults.

(** A status page on which every create-incident call fails. *)
Definition create_fails : Page.Setup :=
  page api
    {| Page.list_err := None; Page.search_err := None;
       Page.create_err := Some "create failed";
       Page.update_err := None; Page.read_err := None |}.


Definition incident (id status : Z) (updated : string) : Incident :=
  {| Id := id; IncidentStatus := status;
     CreatedAt := "2024-01-01 10:00:00"; UpdatedAt := updated |}.

(** States: one open incident (status 4) for component 42; the same
    incident once resolved; one closed incident (status 1); open incidents
    for components 42 and 7. *)
Definition open_incident : Page.State :=
  [(42, incident 1 4 "2024-01-01 10:00:00")].

Definition resolved_incident : Page.State :=
  [(42, incident 1 1 "2024-01-01 10:42:30")].

Definition closed_incident : Page.State :=
  [(42, incident 1 1 "2024-01-01 10:00:00")].


(** The handler and its parts on the reference instances, with
    [LOG_DEBUG := true]. *)
Definition submit (s : Page.Setup) (squash : bool) (alerts : PrometheusAlert)
    : M Page.State Response :=
  @SubmitAlert _ (Page.client s) Clock.go_time bool _ true
    (request alerts) (config squash).

Definition loop (s : Page.Setup) (squash : bool) (status componentStatus : Z)
    (components : gmap string Z) (alerts : list PrometheusAlertDetail)
    (fired : gmap Z Z) : M Page.State (option Response * gmap Z Z) :=
  @alerts_loop _ (Page.client s) Clock.go_time bool _ true (config squash)
    status componentStatus components alerts fired.

Definition body (s : Page.Setup) (squash : bool) (status componentStatus : Z)
    (components : gmap string Z) (alert : PrometheusAlertDetail)
    (fired : gmap Z Z) : M Page.State (option Response * gmap Z Z) :=
  @alert_body _ (Page.client s) Clock.go_time bool _ true (config squash)
    status componentStatus components alert fired.

Definition block (s : Page.Setup) (squash : bool) (status componentStatus : Z)
    (alert : PrometheusAlertDetail) (componentID : Z)
    : M Page.State (option Response) :=
  @fire _ (Page.client s) Clock.go_time bool _ true (config squash)
    status componentStatus alert componentID.

End Fixture.

(** ** Vocabulary of the statements *)

(** The request passes the bearer check of lines 56-65. *)
Definition authorized {L} (c : Context) (config : PrometheusCachetConfig L) : Prop :=
  PrometheusToken config = EmptyString
  ∨ GetHeader c "Authorization" = Sprintf_bearer (PrometheusToken config).

(** The client calls of a trace, without the log lines. *)
Definition calls (t : Trace) : list (Call * option error) :=
  omap (λ e, match e with Called c r => Some (c, r) | Logged _ => None end) t.

(** The calls whose returned error the handler inspects. *)
Definition checked_call (c : Call) : bool :=
  match c with
  | CallListComponents | CallSearchIncidents _ | CallCreateIncident _ _ _ _ => true
  | CallUpdateIncident _ _ _ _ _ | CallReadIncident _ => false
  end.

(** [fail_fast checked resp t]: whenever a call selected by [checked] fails
    in [t], no client call follows it and its error is the response. *)
Definition fail_fast (checked : Call → bool) (resp : Response) (t : Trace) : Prop :=
  ∀ pre c e post,
    t = pre ++ Called c (Some e) :: post →
    checked c = true →
    resp = error_response e ∧ calls post = [].

(** The trace consists of log lines only. *)
Definition log_lines (t : Trace) : Prop :=
  Forall (λ e, match e with Logged _ => True | Called _ _ => False end) t.

(** No call whose error the handler inspects has failed in the trace. *)
Definition quiet (t : Trace) : Prop :=
  Forall (λ e, match e with
               | Called c (Some _) => checked_call c = false
               | _ => True
               end) t.

(** What a trace must satisfy when the loop body ends with [r]: nothing
    inspected has failed if the loop goes on, and an answer follows the
    fail-fast discipline. *)
Definition settled (r : option Response) (t : Trace) : Prop :=
  match r with
  | None => quiet t
  | Some resp => fail_fast checked_call resp t
  end.

(** Every create-incident call of the trace carries these two codes. *)
Definition creates_with (status componentStatus : Z) (t : Trace) : Prop :=
  Forall (λ e, match e with
               | Called (CallCreateIncident _ _ s cs) _ =>
                 s = status ∧ cs = componentStatus
               | _ => True
               end) t.

(** Every create-incident and update-incident call of the trace is made
    under this name. *)
Definition named (name : string) (t : Trace) : Prop :=
  Forall (λ e, match e with
               | Called (CallCreateIncident n _ _ _) _
               | Called (CallUpdateIncident n _ _ _ _) _ => n = name
               | _ => True
               end) t.

(** The request [c] with the alerts of its payload replaced. *)
Definition with_alerts (c : Context) (l : list PrometheusAlertDetail) : Context :=
  let a := (ShouldBindJSON c).1 in
  {| GetHeader := GetHeader c;
     ShouldBindJSON :=
       ({| Version := Version a; GroupKey := GroupKey a; Status := Status a;
           Receiver := Receiver a; GroupLabels := GroupLabels a;
           CommonLabels := CommonLabels a;
           CommonAnnotations := CommonAnnotations a;
           ExternalURL := ExternalURL a; Alerts := l |},
        (ShouldBindJSON c).2) |}.

(** How many calls of a trace satisfy [p]; how often a trace searches the
    incidents of a component, creates an incident for it, updates one of
    its incidents. *)
Definition count_calls (p : Call → bool) (t : Trace) : nat :=
  length (List.filter (λ cr, p cr.1) (calls t)).

Definition searches (componentID : Z) : Trace → nat :=
  count_calls (λ c, match c with
                    | CallSearchIncidents i => bool_decide (i = componentID)
                    | _ => false
                    end).

Definition creates (componentID : Z) : Trace → nat :=
  count_calls (λ c, match c with
                    | CallCreateIncident _ i _ _ => bool_decide (i = componentID)
                    | _ => false
                    end).

Definition updates (componentID : Z) : Trace → nat :=
  count_calls (λ c, match c with
                    | CallUpdateIncident _ i _ _ _ => bool_decide (i = componentID)
                    | _ => false
                    end).

(** Puts the effects [t] in front of those of an outcome. *)
Definition after {A B} (t : Trace) (x : A * B * Trace) : A * B * Trace :=
  (x.1.1, x.1.2, t ++ x.2).

(** [n] deliveries of the same request, one after the other. *)
Fixpoint deliveries {B} (handler : M B Response) (n : nat) (b : B) : B * Trace :=
  match n with
  | O => (b, [])
  | S n =>
    let '(_, b1, t1) := handler b in
    let '(b2, t2) := deliveries handler n b1 in
    (b2, t1 ++ t2)
  end.

(** ** Further vocabulary *)

(** The request [c] with other headers. *)
Definition with_headers (c : Context) (headers : string → string) : Context :=
  {| GetHeader := headers; ShouldBindJSON := ShouldBindJSON c |}.

(** The configuration with another log level. *)
Definition with_level {L} (config : PrometheusCachetConfig L) (level : L)
    : PrometheusCachetConfig L :=
  {| PrometheusToken := PrometheusToken config; LogLevel := level;
     LabelName := LabelName config; SquashIncident := SquashIncident config |}.

(** What an outcome shows apart from the log: the result, the state of the
    status page and the client calls. *)
Definition observable {A B} (x : A * B * Trace) : A * B * list (Call * option error) :=
  (x.1.1, x.1.2, calls x.2).

(** The trace has no log line. *)
Definition unlogged (t : Trace) : Prop :=
  Forall (λ e, match e with Logged _ => False | Called _ _ => True end) t.

(** Every client call of the trace satisfies [p]. *)
Definition only_calls (p : Call → Prop) (t : Trace) : Prop :=
  Forall (λ e, match e with Called c _ => p c | Logged _ => True end) t.

(** The component a call is about and the name it is made under, for the
    calls that have one. *)
Definition call_component (c : Call) : option Z :=
  match c with
  | CallSearchIncidents i => Some i
  | CallCreateIncident _ i _ _ => Some i
  | CallUpdateIncident _ i _ _ _ => Some i
  | CallListComponents | CallReadIncident _ => None
  end.

Definition call_name (c : Call) : option string :=
  match c with
  | CallCreateIncident n _ _ _ => Some n
  | CallUpdateIncident n _ _ _ _ => Some n
  | _ => None
  end.

(** The call is about a component that the directory gives for the label
    value of an alert of the batch, and is made under that label value. *)
Definition from_batch {L} (config : PrometheusCachetConfig L)
    (components : gmap string Z) (batch : list PrometheusAlertDetail) (c : Call) : Prop :=
  ∀ i, call_component c = Some i →
    ∃ alert, alert ∈ batch
      ∧ components !! label_value config alert = Some i
      ∧ ∀ n, call_name c = Some n → n = label_value config alert.

(** The components that the directory gives for the alerts of a batch. *)
Definition resolved {L} (config : PrometheusCachetConfig L)
    (components : gmap string Z) (batch : list PrometheusAlertDetail) : list Z :=
  omap (λ alert, components !! label_value config alert) batch.

(** Which client calls an invocation may make, by squash mode and by
    whether the status of the group is ["firing"]. *)
Definition allowed (squash firing : bool) (c : Call) : bool :=
  match c with
  | CallListComponents => true
  | CallSearchIncidents _ => squash
  | CallCreateIncident _ _ _ _ => negb squash || firing
  | CallUpdateIncident _ _ _ status _ =>
    squash && negb firing && bool_decide (status = 1)
  | CallReadIncident _ => squash && negb firing
  end.

(** The trace ends with a failed call whose error the handler inspects,
    followed by log lines only. *)
Definition ends_with_failure (e : error) (t : Trace) : Prop :=
  ∃ t0 c logs,
    t = t0 ++ Called c (Some e) :: logs ∧ checked_call c = true ∧ log_lines logs.

(** The trace ends with a successful search for a component, and [e] is the
    message for a component without incident. *)
Definition ends_with_empty_search (e : error) (t : Trace) : Prop :=
  ∃ t0 i, t = t0 ++ [Called (CallSearchIncidents i) None] ∧ e = Sprintf_no_incident i.

(** ** Further requests used in the examples *)

Module Sample.

(** A configuration with a token, logging at [LOG_DEBUG := true]. *)
Definition guarded : PrometheusCachetConfig bool :=
  {| PrometheusToken := "s3cret"; LogLevel := true;
     LabelName := "service"; SquashIncident := true |}.

Definition request_with (authorization : string) (alerts : PrometheusAlert) : Context :=
  {| GetHeader := λ name, if decide (name = "Authorization")
                          then authorization else EmptyString;
     ShouldBindJSON := (alerts, None) |}.

(** A request whose payload does not bind. *)
Definition unbound (e : error) : Context :=
  {| GetHeader := λ _, EmptyString;
     ShouldBindJSON := (Fixture.group EmptyString [], Some e) |}.

(** A status page on which [ListComponents] fails. *)
Definition list_fails : Page.Setup :=
  Fixture.page Fixture.api
    {| Page.list_err := Some "list failed"; Page.search_err := None;
       Page.create_err := None; Page.update_err := None; Page.read_err := None |}.

(** [SubmitAlert] on the reference instances, with [LOG_DEBUG := true]. *)
Definition submit (s : Page.Setup) (c : Context) (config : PrometheusCachetConfig bool)
    : M Page.State Response :=
  @SubmitAlert _ (Page.client s) Clock.go_time bool _ true c config.

End Sample.

(** * Properties of the handler *)

Section Properties.
Context {B : Type} {cachet : CachetClient B} {gotime : GoTime}.
Context {LogLevelT : Type} {eqdec : EqDecision LogLevelT} (LOG_DEBUG : LogLevelT).

Implicit Types (config : PrometheusCachetConfig LogLevelT) (b : B) (t : Trace).
Implicit Types (components : gmap string Z) (fired : gmap Z Z).
Implicit Types (alert : PrometheusAlertDetail) (alerts : PrometheusAlert).

(** ** Running the monad *)

Lemma run_bind {A A'} (m : M B A) (k : A → M B A') b :
  (m ≫= k) b = (let '(a, b1, t1) := m b in after t1 (k a b1)).
Proof.
  unfold mbind, M_bind, bind, after.
  destruct (m b) as [[a b1] t1]. by destruct (k a b1) as [[a' b2] t2].
Qed.

Ltac run_ret := unfold mret, M_ret, ret, after; simpl; rewrite ?app_nil_r.

Lemma after_nil {A} (x : A * B * Trace) : after [] x = x.
Proof. by destruct x as [[a b] t]. Qed.

Lemma after_after {A} t1 t2 (x : A * B * Trace) :
  after t1 (after t2 x) = after (t1 ++ t2) x.
Proof. destruct x as [[a b] t]. unfold after; simpl. by rewrite app_assoc. Qed.

(** ** The loop *)

Lemma alerts_loop_cons config st cst components alert rest fired b :
  alerts_loop LOG_DEBUG config st cst components (alert :: rest) fired b =
  match alert_body LOG_DEBUG config st cst components alert fired b with
  | ((Some resp, fired'), b', t) => ((Some resp, fired'), b', t)
  | ((None, fired'), b', t) =>
    after t (alerts_loop LOG_DEBUG config st cst components rest fired' b')
  end.
Proof.
  simpl. rewrite run_bind.
  destruct (alert_body _ _ _ _ _ _ _ _) as [[[[resp|] fired'] b'] t]; simpl.
  - by run_ret.
  - done.
Qed.

Lemma alerts_loop_app config st cst components pre rest fired b fired' b' t :
  alerts_loop LOG_DEBUG config st cst components pre fired b = ((None, fired'), b', t) →
  alerts_loop LOG_DEBUG config st cst components (pre ++ rest) fired b =
  after t (alerts_loop LOG_DEBUG config st cst components rest fired' b').
Proof.
  revert fired b t. induction pre as [|a pre IH]; intros fired b t.
  - simpl. run_ret. intros [= <- <- <-]. by destruct (alerts_loop _ _ _ _ _ _ _ _) as [[??]?].
  - rewrite <- app_comm_cons, !alerts_loop_cons.
    destruct (alert_body _ _ _ _ _ _ _ _) as [[[[resp|] fired1] b1] t1]; [done|].
    destruct (alerts_loop _ _ _ _ _ pre _ _) as [[[r fired2] b2] t2] eqn:E.
    unfold after at 1; simpl. intros [= -> -> -> <-].
    by rewrite (IH _ _ _ E), after_after.
Qed.

Lemma alerts_loop_app_stop config st cst components pre rest fired b resp fired' b' t :
  alerts_loop LOG_DEBUG config st cst components pre fired b = ((Some resp, fired'), b', t) →
  alerts_loop LOG_DEBUG config st cst components (pre ++ rest) fired b =
  ((Some resp, fired'), b', t).
Proof.
  revert fired b t. induction pre as [|a pre IH]; intros fired b t.
  - done.
  - rewrite <- app_comm_cons, !alerts_loop_cons.
    destruct (alert_body _ _ _ _ _ _ _ _) as [[[[resp1|] fired1] b1] t1]; [done|].
    destruct (alerts_loop _ _ _ _ _ pre _ _) as [[[r fired2] b2] t2] eqn:E.
    unfold after at 1; simpl. intros [= -> -> -> <-].
    by rewrite (IH _ _ _ E).
Qed.

(** ** The handler around the loop *)

Lemma SubmitAlert_accepted c config alerts b components b1 :
  authorized c config →
  ShouldBindJSON c = (alerts, None) →
  ListComponents b = ((components, None), b1) →
  SubmitAlert LOG_DEBUG c config b =
  let '((r, _), b2, t) :=
    alerts_loop LOG_DEBUG config (target_status alerts).1 (target_status alerts).2
      components (Alerts alerts) ∅ b1 in
  (default ok_response r, b2, Called CallListComponents None :: t).
Proof.
  intros Hauth Hbind Hlist. unfold SubmitAlert.
  assert (bool_decide (PrometheusToken config ≠ EmptyString)
          && bool_decide (GetHeader c "Authorization"
                          ≠ Sprintf_bearer (PrometheusToken config)) = false) as ->.
  { apply andb_false_iff. destruct Hauth as [Ht|Hh].
    - left. by apply bool_decide_eq_false_2; intros [].
    - right. by apply bool_decide_eq_false_2; intros []. }
  rewrite Hbind. destruct (target_status alerts) as [st cst]; simpl.
  rewrite run_bind. unfold Cachet_ListComponents. rewrite Hlist; simpl.
  rewrite run_bind.
  by destruct (alerts_loop _ _ _ _ _ _ _ _) as [[[[resp|] fired] b2] t]; run_ret.
Qed.

#[local] Arguments debug_Println : simpl never.

Lemma debug_Println_run config args b :
  ∃ logs, debug_Println LOG_DEBUG config args b = (tt, b, logs) ∧ log_lines logs.
Proof.
  unfold debug_Println. case_decide; eexists; (split; [reflexivity|]);
    by repeat constructor.
Qed.

(** The three ways an invocation can go: it answers before any client call
    (bearer or payload refused), it answers after a failed
    [ListComponents], or it runs the loop. *)
Lemma SubmitAlert_cases c config b :
  (∃ e logs, SubmitAlert LOG_DEBUG c config b = (error_response e, b, logs)
             ∧ log_lines logs)
  ∨ (∃ components e b1 logs,
       ListComponents b = ((components, Some e), b1) ∧ log_lines logs
       ∧ SubmitAlert LOG_DEBUG c config b =
         (error_response e, b1, Called CallListComponents (Some e) :: logs))
  ∨ (∃ alerts components b1 r fired b2 t,
       ShouldBindJSON c = (alerts, None)
       ∧ ListComponents b = ((components, None), b1)
       ∧ alerts_loop LOG_DEBUG config (target_status alerts).1 (target_status alerts).2
           components (Alerts alerts) ∅ b1 = ((r, fired), b2, t)
       ∧ SubmitAlert LOG_DEBUG c config b =
         (default ok_response r, b2, Called CallListComponents None :: t)).
Proof.
  unfold SubmitAlert. case_match.
  { left. rewrite run_bind.
    destruct (debug_Println_run config
                ["wrong Authorization header:"; GetHeader c "Authorization"] b)
      as (logs & -> & Hlogs).
    run_ret. eauto. }
  destruct (ShouldBindJSON c) as [alerts [e|]]; simpl.
  { left. rewrite run_bind.
    destruct (debug_Println_run config [e] b) as (logs & -> & Hlogs).
    run_ret. eauto. }
  destruct (target_status alerts) as [st cst] eqn:Ets.
  rewrite run_bind. unfold Cachet_ListComponents.
  destruct (ListComponents b) as [[components [e|]] b1]; simpl.
  { right; left. rewrite run_bind.
    destruct (debug_Println_run config [e] b1) as (logs & -> & Hlogs).
    run_ret. eauto 10. }
  right; right. rewrite run_bind.
  destruct (alerts_loop _ _ _ _ _ _ _ _) as [[[r fired] b2] t] eqn:El.
  exists alerts, components, b1, r, fired, b2, t. rewrite Ets.
  by destruct r; run_ret.
Qed.

Lemma log_lines_calls t : log_lines t → calls t = [].
Proof. induction 1 as [|[]]; by simplify_eq/=. Qed.

Lemma log_lines_creates_with st cst t : log_lines t → creates_with st cst t.
Proof. intros Hl. eapply Forall_impl; [done|]. by intros []. Qed.


(** ** One alert *)

Lemma alert_body_unmapped config st cst components alert fired b :
  components !! label_value config alert = None →
  alert_body LOG_DEBUG config st cst components alert fired b = ((None, fired), b, []).
Proof. intros E. unfold alert_body. by rewrite E. Qed.

Lemma alert_body_seen config st cst components alert componentID fired b :
  components !! label_value config alert = Some componentID →
  default 0 (fired !! componentID) ≠ 0 →
  alert_body LOG_DEBUG config st cst components alert fired b = ((None, fired), b, []).
Proof.
  intros E Hseen. unfold alert_body. rewrite E.
  by rewrite bool_decide_eq_false_2.
Qed.

Lemma alert_body_first config st cst components alert componentID fired b :
  components !! label_value config alert = Some componentID →
  default 0 (fired !! componentID) = 0 →
  alert_body LOG_DEBUG config st cst components alert fired b =
  let '(r, b', t) := fire LOG_DEBUG config st cst alert componentID b in
  ((r, <[componentID := 1]> fired), b', t).
Proof.
  intros E Hnew. unfold alert_body. rewrite E, bool_decide_eq_true_2 by done.
  rewrite run_bind. by destruct (fire _ _ _ _ _ _ _) as [[r b'] t]; run_ret.
Qed.

(** An alert whose body does nothing, whatever the state, can be dropped
    from the batch. *)
Lemma alerts_loop_drop config st cst components pre alert rest fired b :
  (∀ fired1 b1 t1,
     alerts_loop LOG_DEBUG config st cst components pre fired b = ((None, fired1), b1, t1) →
     alert_body LOG_DEBUG config st cst components alert fired1 b1 = ((None, fired1), b1, [])) →
  alerts_loop LOG_DEBUG config st cst components (pre ++ alert :: rest) fired b =
  alerts_loop LOG_DEBUG config st cst components (pre ++ rest) fired b.
Proof.
  intros Hskip.
  destruct (alerts_loop LOG_DEBUG config st cst components pre fired b)
    as [[[[resp|] fired1] b1] t1] eqn:E.
  - by rewrite !(alerts_loop_app_stop _ _ _ _ _ _ _ _ _ _ _ _ E).
  - rewrite !(alerts_loop_app _ _ _ _ _ _ _ _ _ _ _ E), alerts_loop_cons.
    by rewrite (Hskip _ _ _ eq_refl), after_nil.
Qed.

(** ** The first-seen block, case by case *)

Ltac run_fire :=
  unfold fire, squash_firing, squash_resolved, squash_resolved_with, no_squash,
    debug_Println, log_Println, Cachet_SearchIncidents, Cachet_CreateIncident,
    Cachet_UpdateIncident, Cachet_ReadIncident,
    mbind, M_bind, bind, mret, M_ret, ret;
  repeat case_match; simplify_eq/=.

Lemma calls_app t1 t2 : calls (t1 ++ t2) = calls t1 ++ calls t2.
Proof. unfold calls. apply omap_app. Qed.

Lemma count_calls_app p t1 t2 :
  count_calls p (t1 ++ t2) = (count_calls p t1 + count_calls p t2)%nat.
Proof. unfold count_calls. by rewrite calls_app, List.filter_app, length_app. Qed.

Lemma fire_counts config st cst alert componentID b r b' t :
  fire LOG_DEBUG config st cst alert componentID b = (r, b', t) →
  (searches componentID t ≤ 1 ∧ creates componentID t ≤ 1
   ∧ updates componentID t ≤ 2)%nat
  ∧ ∀ other, other ≠ componentID →
      searches other t = 0%nat ∧ creates other t = 0%nat ∧ updates other t = 0%nat.
Proof.
  intros Hf. revert Hf. run_fire; intros; simplify_eq;
    (split; [|intros other Hother]);
    unfold searches, creates, updates, count_calls; simpl;
    repeat case_bool_decide; simpl; try done; lia.
Qed.

(** ** The [alreadyFired] map *)

Lemma alert_body_fired config st cst components alert fired b r fired' b' t :
  alert_body LOG_DEBUG config st cst components alert fired b = ((r, fired'), b', t) →
  (∀ i, default 0 (fired !! i) ≠ 0 → default 0 (fired' !! i) ≠ 0)
  ∧ (∀ i, components !! label_value config alert = Some i →
          default 0 (fired' !! i) ≠ 0).
Proof.
  unfold alert_body.
  destruct (components !! label_value config alert) as [componentID|] eqn:E;
    [|by intros [= <- <- <- <-]].
  case_bool_decide as Hnew.
  - rewrite run_bind. destruct (fire _ _ _ _ _ _ _) as [[r1 b1] t1]; run_ret.
    intros [= <- <- <- <-]. split.
    + intros i Hi. destruct (decide (i = componentID)) as [->|Hne].
      * by rewrite lookup_insert_eq.
      * by rewrite lookup_insert_ne.
    + intros i [= <-]. by rewrite lookup_insert_eq.
  - intros [= <- <- <- <-]. split; [done|]. by intros i [= <-].
Qed.

Lemma alerts_loop_fired config st cst components l fired b fired' b' t :
  alerts_loop LOG_DEBUG config st cst components l fired b = ((None, fired'), b', t) →
  (∀ i, default 0 (fired !! i) ≠ 0 → default 0 (fired' !! i) ≠ 0)
  ∧ (∀ alert i, alert ∈ l → components !! label_value config alert = Some i →
                default 0 (fired' !! i) ≠ 0).
Proof.
  revert fired b t. induction l as [|a l IH]; intros fired b t.
  - simpl. run_ret. intros [= <- <- <-]. split; [done|]. by intros ?? ?%elem_of_nil.
  - rewrite alerts_loop_cons.
    destruct (alert_body _ _ _ _ _ _ _ _) as [[[[resp|] fired1] b1] t1] eqn:E; [done|].
    destruct (alerts_loop _ _ _ _ _ l _ _) as [[[r fired2] b2] t2] eqn:El.
    unfold after; simpl. intros [= -> -> -> <-].
    destruct (alert_body_fired _ _ _ _ _ _ _ _ _ _ _ E) as [Hmono Hmark].
    destruct (IH _ _ _ El) as [Hmono' Hmark']. split; [by auto|].
    intros alert i [->|Hin]%elem_of_cons Hi; [by auto|by eauto].
Qed.

(** ** Counting the calls about one component *)

Lemma alerts_loop_counts config st cst components l fired b r fired' b' t i :
  alerts_loop LOG_DEBUG config st cst components l fired b = ((r, fired'), b', t) →
  (searches i t ≤ 1 ∧ creates i t ≤ 1 ∧ updates i t ≤ 2)%nat
  ∧ (default 0 (fired !! i) ≠ 0 →
     searches i t = 0%nat ∧ creates i t = 0%nat ∧ updates i t = 0%nat).
Proof.
  revert fired b r fired' b' t. induction l as [|a l IH]; intros fired b r fired' b' t.
  - simpl. run_ret. intros [= <- <- <- <-].
    unfold searches, creates, updates, count_calls; simpl. lia.
  - rewrite alerts_loop_cons. unfold alert_body.
    destruct (components !! label_value config a) as [componentID|] eqn:E;
      [case_bool_decide as Hnew|].
    + rewrite run_bind. destruct (fire _ _ _ _ _ _ _) as [[r1 b1] t1] eqn:Ef.
      destruct (fire_counts _ _ _ _ _ _ _ _ _ Ef) as [Hsame Hother].
      destruct r1 as [resp|]; run_ret.
      * intros [= <- <- <- <-].
        destruct (decide (i = componentID)) as [->|Hne]; [done|].
        specialize (Hother _ Hne). lia.
      * destruct (alerts_loop _ _ _ _ _ l _ _) as [[[r2 fired2] b2] t2] eqn:El.
        simpl. intros [= <- <- <- <-].
        destruct (IH _ _ _ _ _ _ El) as [Hle Hzero].
        unfold searches, creates, updates in *. rewrite !count_calls_app.
        destruct (decide (i = componentID)) as [->|Hne].
        -- rewrite lookup_insert_eq in Hzero. specialize (Hzero ltac:(done)).
           split; [lia|]. intros Hseen. by rewrite Hnew in Hseen.
        -- rewrite lookup_insert_ne in Hzero by done. specialize (Hother _ Hne).
           unfold searches, creates, updates in Hother. split; [lia|].
           intros Hseen. specialize (Hzero Hseen). lia.
    + unfold mret, M_ret, ret; simpl. rewrite after_nil. apply IH.
    + unfold mret, M_ret, ret; simpl. rewrite after_nil. apply IH.
Qed.

(** ** Dropping alerts from a request *)

Lemma SubmitAlert_with_alerts c config b l :
  (∀ st cst,
     alerts_loop LOG_DEBUG config st cst (ListComponents b).1.1
       (Alerts (ShouldBindJSON c).1) ∅ (ListComponents b).2 =
     alerts_loop LOG_DEBUG config st cst (ListComponents b).1.1 l ∅ (ListComponents b).2) →
  SubmitAlert LOG_DEBUG c config b = SubmitAlert LOG_DEBUG (with_alerts c l) config b.
Proof.
  intros Hloop. unfold SubmitAlert, with_alerts; simpl.
  case_match; [done|].
  destruct (ShouldBindJSON c) as [alerts [e|]]; simpl in *; [done|].
  unfold target_status; simpl. destruct (decide (Status alerts = "firing")).
  all: rewrite !run_bind; unfold Cachet_ListComponents.
  all: destruct (ListComponents b) as [[components [e'|]] b1]; simpl in *; [done|].
  all: by rewrite !run_bind, Hloop.
Qed.

Lemma SubmitAlert_counts c config b i :
  (searches i (SubmitAlert LOG_DEBUG c config b).2 ≤ 1
   ∧ creates i (SubmitAlert LOG_DEBUG c config b).2 ≤ 1
   ∧ updates i (SubmitAlert LOG_DEBUG c config b).2 ≤ 2)%nat.
Proof.
  unfold SubmitAlert. case_match.
  { unfold debug_Println, log_Println. case_decide; run_fire;
      unfold searches, creates, updates, count_calls; simpl; lia. }
  destruct (ShouldBindJSON c) as [alerts [e|]]; simpl.
  { unfold debug_Println, log_Println. case_decide; run_fire;
      unfold searches, creates, updates, count_calls; simpl; lia. }
  destruct (target_status alerts) as [st cst].
  rewrite run_bind. unfold Cachet_ListComponents.
  destruct (ListComponents b) as [[components [e|]] b1]; simpl.
  { unfold debug_Println, log_Println. case_decide; run_fire;
      unfold searches, creates, updates, count_calls; simpl; lia. }
  rewrite run_bind.
  destruct (alerts_loop _ _ _ _ _ _ _ _) as [[[r fired] b2] t] eqn:El.
  destruct (alerts_loop_counts _ _ _ _ _ _ _ _ _ _ _ i El) as [Hle _].
  by destruct r; run_ret.
Qed.

Lemma fire_named config st cst alert componentID b r b' t :
  fire LOG_DEBUG config st cst alert componentID b = (r, b', t) →
  named (label_value config alert) t ∧ calls t ≠ [].
Proof.
  intros Hf. revert Hf. run_fire; intros; simplify_eq;
    (split; [by repeat constructor|done]).
Qed.

(** ** Alerts that are passed over *)

(** C7: an alert whose label value is absent from the component directory
    makes the loop body do nothing (no client call, no answer, the
    [alreadyFired] map unchanged), and the invocation is the same, in
    response, final state and effects, as the one without that alert. *)
Theorem unmapped_alert_is_skipped c config b pre alert rest :
  Alerts (ShouldBindJSON c).1 = pre ++ alert :: rest →
  (ListComponents b).1.1 !! label_value config alert = None →
  (∀ st cst fired b1,
     alert_body LOG_DEBUG config st cst (ListComponents b).1.1 alert fired b1 =
     ((None, fired), b1, []))
  ∧ SubmitAlert LOG_DEBUG c config b =
    SubmitAlert LOG_DEBUG (with_alerts c (pre ++ rest)) config b.
Proof.
  intros Hbatch Hnone. split.
  - intros. by apply alert_body_unmapped.
  - apply SubmitAlert_with_alerts. intros st cst. rewrite Hbatch.
    apply alerts_loop_drop. intros. by apply alert_body_unmapped.
Qed.

(** C6: when two alerts of a batch resolve to the same component, the later
    one is passed over: the invocation is the same, in response, final state
    and effects, as the one without it.  Hence in every invocation each
    component is searched at most once, gets at most one incident created
    and at most the two updates of one resolution. *)
Theorem repeated_component_is_skipped c config b l1 a1 l2 a2 l3 componentID :
  Alerts (ShouldBindJSON c).1 = l1 ++ a1 :: l2 ++ a2 :: l3 →
  (ListComponents b).1.1 !! label_value config a1 = Some componentID →
  (ListComponents b).1.1 !! label_value config a2 = Some componentID →
  SubmitAlert LOG_DEBUG c config b =
  SubmitAlert LOG_DEBUG (with_alerts c (l1 ++ a1 :: l2 ++ l3)) config b
  ∧ ∀ i, (searches i (SubmitAlert LOG_DEBUG c config b).2 ≤ 1
          ∧ creates i (SubmitAlert LOG_DEBUG c config b).2 ≤ 1
          ∧ updates i (SubmitAlert LOG_DEBUG c config b).2 ≤ 2)%nat.
Proof.
  intros Hbatch H1 H2. split; [|apply SubmitAlert_counts].
  apply SubmitAlert_with_alerts. intros st cst. rewrite Hbatch.
  replace (l1 ++ a1 :: l2 ++ a2 :: l3) with ((l1 ++ a1 :: l2) ++ a2 :: l3)
    by (by rewrite <- app_assoc).
  replace (l1 ++ a1 :: l2 ++ l3) with ((l1 ++ a1 :: l2) ++ l3)
    by (by rewrite <- app_assoc).
  apply alerts_loop_drop. intros fired1 b1 t1 Hpre.
  apply (alert_body_seen _ _ _ _ _ componentID); [done|].
  destruct (alerts_loop_fired _ _ _ _ _ _ _ _ _ _ Hpre) as [_ Hmark].
  apply (Hmark a1); [|done]. set_solver.
Qed.

(** C10: an alert whose labels lack the configured key is resolved with the
    empty string.  It is passed over when the directory has no entry for the
    empty string; when the directory maps the empty string to a component
    seen for the first time, the first-seen block runs for that component,
    makes at least one client call, and names its incidents by the empty
    string. *)
Theorem missing_label_reads_as_empty config st cst components alert fired b :
  Labels alert !! LabelName config = None →
  label_value config alert = EmptyString
  ∧ (components !! EmptyString = None →
     alert_body LOG_DEBUG config st cst components alert fired b = ((None, fired), b, []))
  ∧ (∀ componentID,
       components !! EmptyString = Some componentID →
       default 0 (fired !! componentID) = 0 →
       ∃ r b' t,
         alert_body LOG_DEBUG config st cst components alert fired b =
           ((r, <[componentID := 1]> fired), b', t)
         ∧ fire LOG_DEBUG config st cst alert componentID b = (r, b', t)
         ∧ named EmptyString t ∧ calls t ≠ []).
Proof.
  intros Hmissing.
  assert (label_value config alert = EmptyString) as Hlabel.
  { unfold label_value. by rewrite Hmissing. }
  split; [done|]. split.
  - intros Hnone. apply alert_body_unmapped. by rewrite Hlabel.
  - intros componentID Hsome Hnew.
    destruct (fire LOG_DEBUG config st cst alert componentID b) as [[r b'] t] eqn:Ef.
    exists r, b', t. split; [|split; [done|]].
    + rewrite (alert_body_first _ _ _ _ _ componentID) by (by rewrite ?Hlabel).
      by rewrite Ef.
    + rewrite <- Hlabel. by eapply fire_named.
Qed.

(** ** Squash mode, firing group *)

(** What the block of lines 98-112 calls after a successful search: a
    create-incident call exactly when the list is empty or its first
    incident has status 4. *)
Lemma squash_firing_calls config st cst alert componentID b incidents b1 :
  SearchIncidents componentID b = ((incidents, None), b1) →
  (calls (squash_firing LOG_DEBUG config st cst alert componentID b).2).*1 =
  CallSearchIncidents componentID
  :: (if match incidents with
         | [] => true
         | first :: _ => bool_decide (IncidentStatus first = 4)
         end
      then [CallCreateIncident (label_value config alert) componentID st cst]
      else []).
Proof.
  intros Hsearch. unfold squash_firing, mbind, M_bind, bind, Cachet_SearchIncidents.
  rewrite Hsearch; simpl. by run_fire.
Qed.

(** ** Squash mode, resolved group *)

(** C9: in the squash-mode branch for a resolved group, when the search
    succeeds with a non-empty list, the [else] branch of the inner
    [if err == nil] cannot run (whatever code stands there, the block
    behaves the same) and the first update-incident call is issued right
    after the search, for the first incident of the list; the block does not
    answer. *)
Theorem squash_resolved_inner_else_is_dead
    inner_else config status alert componentID b first more b1 e1 b2 :
  SearchIncidents componentID b = ((first :: more, None), b1) →
  UpdateIncident (label_value config alert) componentID (Id first) status
    (Sprintf_up (label_value config alert)) b1 = (e1, b2) →
  squash_resolved_with inner_else config status alert componentID b =
  squash_resolved config status alert componentID b
  ∧ ∃ b' t,
      squash_resolved config status alert componentID b =
      (None, b',
       Called (CallSearchIncidents componentID) None
       :: Called (CallUpdateIncident (label_value config alert) componentID
                    (Id first) status (Sprintf_up (label_value config alert))) e1
       :: t).
Proof.
  intros Hsearch Hupdate. unfold squash_resolved, squash_resolved_with.
  rewrite !run_bind. unfold Cachet_SearchIncidents. rewrite Hsearch; simpl.
  split; [done|].
  rewrite run_bind. unfold Cachet_UpdateIncident at 1. rewrite Hupdate; simpl.
  run_fire; eauto.
Qed.

(** C5: in squash mode with a resolved group, for a component seen for the
    first time whose search returns a non-empty list, the handler updates
    the first incident, reads it again and issues a second update exactly
    when the read succeeds and both [CreatedAt] and [UpdatedAt] parse under
    the layout ["2006-01-02 15:04:05"]; the message of that update carries
    [int(updatedAt.Sub(createdAt).Minutes())] in decimal.  In both cases
    the loop goes on with the next alert: no error is reported, whatever
    the updates and the read return. *)
Theorem resolution_reports_downtime_when_timestamps_parse
    config cst components alert rest componentID fired b
    first more b1 e1 b2 incident read_err b3 createdAt err1 updatedAt err2 e2 b4 :
  let name := label_value config alert in
  let minutes := int_of_float64 (Duration_Minutes (Time_Sub updatedAt createdAt)) in
  let first_update :=
    CallUpdateIncident name componentID (Id first) 1 (Sprintf_up name) in
  let second_update :=
    CallUpdateIncident name componentID (Id first) 1 (Sprintf_up_minutes name minutes) in
  SquashIncident config = true →
  components !! name = Some componentID →
  default 0 (fired !! componentID) = 0 →
  SearchIncidents componentID b = ((first :: more, None), b1) →
  UpdateIncident name componentID (Id first) 1 (Sprintf_up name) b1 = (e1, b2) →
  ReadIncident (Id first) b2 = ((incident, read_err), b3) →
  time_Parse "2006-01-02 15:04:05" (CreatedAt incident) = (createdAt, err1) →
  time_Parse "2006-01-02 15:04:05" (UpdatedAt incident) = (updatedAt, err2) →
  UpdateIncident name componentID (Id first) 1 (Sprintf_up_minutes name minutes) b3
    = (e2, b4) →
  alerts_loop LOG_DEBUG config 1 cst components (alert :: rest) fired b =
  if bool_decide (read_err = None ∧ err1 = None ∧ err2 = None) then
    after [Called (CallSearchIncidents componentID) None;
           Called first_update e1;
           Called (CallReadIncident (Id first)) None;
           Called second_update e2]
      (alerts_loop LOG_DEBUG config 1 cst components rest (<[componentID := 1]> fired) b4)
  else
    after [Called (CallSearchIncidents componentID) None;
           Called first_update e1;
           Called (CallReadIncident (Id first)) read_err]
      (alerts_loop LOG_DEBUG config 1 cst components rest (<[componentID := 1]> fired) b3).
Proof.
  intros name minutes first_update second_update
    Hsquash Hsome Hnew Hsearch Hup1 Hread Hc Hu Hup2.
  subst name minutes first_update second_update.
  rewrite alerts_loop_cons, (alert_body_first _ _ _ _ _ componentID) by done.
  unfold fire, squash_resolved, squash_resolved_with, mbind, M_bind, bind,
    mret, M_ret, ret, Cachet_SearchIncidents, Cachet_UpdateIncident,
    Cachet_ReadIncident.
  rewrite Hsquash; simpl. rewrite Hsearch; simpl. rewrite Hup1; simpl.
  rewrite Hread; simpl.
  destruct read_err as [x0|]; simpl.
  { by rewrite ?bool_decide_eq_false_2 by (by intros [??]). }
  rewrite Hc, Hu.
  destruct err1 as [x1|], err2 as [x2|]; simpl;
    rewrite ?bool_decide_eq_false_2 by (by intros (? & ? & ?)); try done.
  rewrite Hup2. by rewrite ?bool_decide_eq_true_2 by done.
Qed.

(** C4: in squash mode with a resolved group, when the search for a
    component seen for the first time succeeds with an empty list, the
    invocation answers 400 with ["No incident found for component N\n"],
    where [N] is the component identifier in decimal; the search is the last
    effect of the invocation, so neither a create nor an update call is made
    for the component and the alerts after it are not processed. *)
Theorem resolve_without_incident_is_an_error
    c config alerts b components b1 pre alert rest fired b2 t componentID b3 :
  authorized c config →
  ShouldBindJSON c = (alerts, None) →
  Status alerts = "resolved" →
  SquashIncident config = true →
  ListComponents b = ((components, None), b1) →
  Alerts alerts = pre ++ alert :: rest →
  alerts_loop LOG_DEBUG config 1 1 components pre ∅ b1 = ((None, fired), b2, t) →
  components !! label_value config alert = Some componentID →
  default 0 (fired !! componentID) = 0 →
  SearchIncidents componentID b2 = (([], None), b3) →
  SubmitAlert LOG_DEBUG c config b =
    (error_response (Sprintf_no_incident componentID), b3,
     Called CallListComponents None
     :: t ++ [Called (CallSearchIncidents componentID) None])
  ∧ ∃ l r, Sprintf_no_incident componentID = l +:+ pretty componentID +:+ r.
Proof.
  intros Hauth Hbind Hstatus Hsquash Hlist Hbatch Hpre Hsome Hnew Hsearch.
  split; [|by eexists _, _].
  rewrite (SubmitAlert_accepted _ _ _ _ _ _ Hauth Hbind Hlist).
  unfold target_status. rewrite Hstatus; simpl.
  rewrite Hbatch, (alerts_loop_app _ _ _ _ _ _ _ _ _ _ _ Hpre), alerts_loop_cons.
  rewrite (alert_body_first _ _ _ _ _ componentID) by done.
  unfold fire. rewrite Hsquash; simpl.
  unfold squash_resolved, squash_resolved_with.
  rewrite !run_bind. unfold Cachet_SearchIncidents. rewrite Hsearch; simpl.
  by run_ret.
Qed.

(** ** Without squashing *)

Lemma no_squash_calls config st cst components alert componentID fired b :
  SquashIncident config = false →
  components !! label_value config alert = Some componentID →
  default 0 (fired !! componentID) = 0 →
  calls (alert_body LOG_DEBUG config st cst components alert fired b).2 =
  [(CallCreateIncident (label_value config alert) componentID st cst,
    (CreateIncident (label_value config alert) componentID st cst b).1)].
Proof.
  intros Hsquash Hsome Hnew.
  rewrite (alert_body_first _ _ _ _ _ componentID) by done.
  unfold fire. rewrite Hsquash. run_fire; by simplify_eq/=.
Qed.

Lemma SubmitAlert_no_squash_single c config alerts alert componentID b components :
  authorized c config →
  ShouldBindJSON c = (alerts, None) →
  Alerts alerts = [alert] →
  SquashIncident config = false →
  (ListComponents b).1 = (components, None) →
  components !! label_value config alert = Some componentID →
  ∃ e, calls (SubmitAlert LOG_DEBUG c config b).2 =
       [(CallListComponents, None);
        (CallCreateIncident (label_value config alert) componentID
           (target_status alerts).1 (target_status alerts).2, e)].
Proof.
  intros Hauth Hbind Hone Hsquash Hlist Hsome.
  destruct (ListComponents b) as [lc b1] eqn:El. simpl in Hlist. subst lc.
  rewrite (SubmitAlert_accepted _ _ _ _ _ _ Hauth Hbind El).
  rewrite Hone, alerts_loop_cons.
  pose proof (no_squash_calls config (target_status alerts).1 (target_status alerts).2
                components alert componentID ∅ b1 Hsquash Hsome eq_refl) as Hcalls.
  destruct (alert_body _ _ _ _ _ _ _ _) as [[[[resp|] fired'] b'] t]; simpl in *.
  - eexists. by rewrite Hcalls.
  - run_ret. eexists. by rewrite Hcalls.
Qed.

(** C8: without squashing, a component seen for the first time gets exactly
    one create-incident call with the two status codes of the group, and no
    search; and [n] deliveries of a firing group with one alert for a listed
    component make [n] times the calls list-components, create-incident
    (with codes 4 and 4), that is [n] create-incident calls for the
    component. *)
Theorem no_squash_creates_on_every_delivery c config alerts alert componentID n b :
  authorized c config →
  ShouldBindJSON c = (alerts, None) →
  Status alerts = "firing" →
  Alerts alerts = [alert] →
  SquashIncident config = false →
  (∀ b0, ∃ components,
     (ListComponents b0).1 = (components, None)
     ∧ components !! label_value config alert = Some componentID) →
  (∀ st cst components fired b0,
     components !! label_value config alert = Some componentID →
     default 0 (fired !! componentID) = 0 →
     calls (alert_body LOG_DEBUG config st cst components alert fired b0).2 =
     [(CallCreateIncident (label_value config alert) componentID st cst,
       (CreateIncident (label_value config alert) componentID st cst b0).1)])
  ∧ (calls (deliveries (SubmitAlert LOG_DEBUG c config) n b).2).*1 =
    concat (replicate n
      [CallListComponents;
       CallCreateIncident (label_value config alert) componentID 4 4])
  ∧ creates componentID (deliveries (SubmitAlert LOG_DEBUG c config) n b).2 = n.
Proof.
  intros Hauth Hbind Hfiring Hone Hsquash Hlisted. split.
  { intros. by apply no_squash_calls. }
  revert b. induction n as [|n IH]; intros b; [done|].
  destruct (Hlisted b) as (components & Hlist & Hsome).
  destruct (SubmitAlert_no_squash_single c config alerts alert componentID b
              components Hauth Hbind Hone Hsquash Hlist Hsome) as [e Hcalls].
  revert Hcalls. unfold target_status. rewrite Hfiring; simpl. intros Hcalls.
  destruct (SubmitAlert LOG_DEBUG c config b) as [[resp b1] t1].
  destruct (IH b1) as [IH1 IH2].
  destruct (deliveries _ n b1) as [b2 t2]. simpl in *.
  unfold creates in *. rewrite count_calls_app, calls_app, fmap_app, IH1, Hcalls.
  split; [done|]. rewrite IH2. unfold count_calls. rewrite Hcalls. simpl.
  by rewrite bool_decide_eq_true_2.
Qed.

(** ** The status codes *)

Lemma fire_creates_with config st cst alert componentID b r b' t :
  fire LOG_DEBUG config st cst alert componentID b = (r, b', t) →
  creates_with st cst t.
Proof. intros Hf. revert Hf. run_fire; intros; simplify_eq; by repeat constructor. Qed.

Lemma alerts_loop_creates_with config st cst components l fired b r fired' b' t :
  alerts_loop LOG_DEBUG config st cst components l fired b = ((r, fired'), b', t) →
  creates_with st cst t.
Proof.
  revert fired b r fired' b' t. induction l as [|a l IH]; intros fired b r fired' b' t.
  - simpl. run_ret. intros [= <- <- <- <-]. constructor.
  - rewrite alerts_loop_cons. unfold alert_body.
    destruct (components !! label_value config a) as [componentID|];
      [case_bool_decide|].
    + rewrite run_bind. destruct (fire _ _ _ _ _ _ _) as [[r1 b1] t1] eqn:Ef.
      apply fire_creates_with in Ef. destruct r1 as [resp|]; run_ret.
      * by intros [= <- <- <- <-].
      * destruct (alerts_loop _ _ _ _ _ l _ _) as [[[r2 fired2] b2] t2] eqn:El.
        simpl. intros [= <- <- <- <-]. apply Forall_app. split; [done|].
        by eapply IH.
    + unfold mret, M_ret, ret; simpl. rewrite after_nil. apply IH.
    + unfold mret, M_ret, ret; simpl. rewrite after_nil. apply IH.
Qed.

(** C3, as the code has it: the target status code is 4 when the status
    field of the group is ["firing"] and 1 for every other value; both the
    incident status and the component status of every create-incident call
    of the invocation are that code. *)
Theorem create_calls_carry_the_target_status c config b :
  let alerts := (ShouldBindJSON c).1 in
  let code := if decide (Status alerts = "firing") then 4 else 1 in
  target_status alerts = (code, code)
  ∧ creates_with code code (SubmitAlert LOG_DEBUG c config b).2.
Proof.
  intros alerts code. subst code.
  assert (target_status alerts =
          (if decide (Status alerts = "firing") then 4 else 1,
           if decide (Status alerts = "firing") then 4 else 1)) as Hts.
  { unfold target_status. by case_decide. }
  split; [done|]. subst alerts.
  destruct (SubmitAlert_cases c config b)
    as [(e & logs & -> & Hlogs)
       |[(components & e & b1 & logs & _ & Hlogs & ->)
        |(alerts & components & b1 & r & fired & b2 & t & Hbind & _ & El & ->)]];
    simpl.
  - by apply log_lines_creates_with.
  - constructor; [done|]. by apply log_lines_creates_with.
  - constructor; [done|]. rewrite Hbind in *; simpl in *.
    apply alerts_loop_creates_with in El. by rewrite Hts in El.
Qed.

(** ** Errors of the client *)

Ltac trace_facts :=
  try unfold quiet; try unfold log_lines;
  by repeat first [constructor | case_match].

Lemma quiet_fail_fast resp t : quiet t → fail_fast checked_call resp t.
Proof.
  intros Hq pre c e post -> Hc.
  apply Forall_app in Hq as [_ Hq]. apply Forall_cons in Hq as [Hq _].
  simpl in Hq. congruence.
Qed.

Lemma fail_fast_after_quiet resp t1 t2 :
  quiet t1 → fail_fast checked_call resp t2 → fail_fast checked_call resp (t1 ++ t2).
Proof.
  intros Hq Hff pre c e post Heq Hc.
  apply app_eq_app in Heq as [l [[-> Heq]|[-> ->]]].
  - destruct l as [|x l]; simpl in Heq.
    + by apply (Hff [] c e post).
    + injection Heq as <- _. apply Forall_app in Hq as [_ Hq].
      apply Forall_cons in Hq as [Hq _]. simpl in Hq. congruence.
  - by apply (Hff l c e post).
Qed.

Lemma fail_fast_last c e logs :
  log_lines logs →
  fail_fast checked_call (error_response e) (Called c (Some e) :: logs).
Proof.
  intros Hl pre c' e' post Heq Hc. destruct pre as [|x pre]; simpl in Heq.
  - injection Heq as -> -> ->. split; [done|]. by apply log_lines_calls.
  - injection Heq as _ ->. apply Forall_app in Hl as [_ Hl].
    by apply Forall_cons in Hl as [[] _].
Qed.

Lemma settled_after_quiet r t1 t2 : quiet t1 → settled r t2 → settled r (t1 ++ t2).
Proof.
  destruct r as [resp|]; simpl; intros Hq Hs.
  - by apply fail_fast_after_quiet.
  - by apply Forall_app.
Qed.

Lemma fire_settled config st cst alert componentID b r b' t :
  fire LOG_DEBUG config st cst alert componentID b = (r, b', t) → settled r t.
Proof.
  intros Hf. revert Hf. run_fire; intros; simplify_eq; unfold settled;
    solve
      [ trace_facts
      | apply quiet_fail_fast; trace_facts
      | apply fail_fast_last; trace_facts
      | apply (fail_fast_after_quiet _ [_]);
          [trace_facts | apply fail_fast_last; trace_facts] ].
Qed.

Lemma alerts_loop_settled config st cst components l fired b r fired' b' t :
  alerts_loop LOG_DEBUG config st cst components l fired b = ((r, fired'), b', t) →
  settled r t.
Proof.
  revert fired b r fired' b' t. induction l as [|a l IH]; intros fired b r fired' b' t.
  - simpl. run_ret. intros [= <- <- <- <-]. constructor.
  - rewrite alerts_loop_cons. unfold alert_body.
    destruct (components !! label_value config a) as [componentID|];
      [case_bool_decide|].
    + rewrite run_bind. destruct (fire _ _ _ _ _ _ _) as [[r1 b1] t1] eqn:Ef.
      apply fire_settled in Ef. destruct r1 as [resp|]; run_ret.
      * by intros [= <- <- <- <-].
      * destruct (alerts_loop _ _ _ _ _ l _ _) as [[[r2 fired2] b2] t2] eqn:El.
        simpl. intros [= <- <- <- <-]. apply settled_after_quiet; [done|].
        by eapply IH.
    + unfold mret, M_ret, ret; simpl. rewrite after_nil. apply IH.
    + unfold mret, M_ret, ret; simpl. rewrite after_nil. apply IH.
Qed.


(** * Further properties *)

(** ** The four ways an invocation can go *)

Lemma authorized_guard c config :
  authorized c config ↔
  bool_decide (PrometheusToken config ≠ EmptyString)
  && bool_decide (GetHeader c "Authorization"
                  ≠ Sprintf_bearer (PrometheusToken config)) = false.
Proof.
  rewrite andb_false_iff, !bool_decide_eq_false. unfold authorized. split.
  - intros [Ht|Hh]; [left|right]; by intros [].
  - intros [Ht|Hh]; [left|right].
    + by destruct (decide (PrometheusToken config = EmptyString)).
    + by destruct (decide (GetHeader c "Authorization"
                           = Sprintf_bearer (PrometheusToken config))).
Qed.

Lemma debug_Println_cases config args b :
  debug_Println LOG_DEBUG config args b =
  (tt, b, if decide (LogLevel config = LOG_DEBUG) then [Logged args] else []).
Proof. unfold debug_Println, log_Println. by destruct (decide _). Qed.

Lemma debug_lines config args :
  log_lines (if decide (LogLevel config = LOG_DEBUG) then [Logged args] else []).
Proof. destruct (decide _); by repeat constructor. Qed.

Lemma SubmitAlert_unauthorized c config b :
  ¬ authorized c config →
  SubmitAlert LOG_DEBUG c config b =
  (error_response "wrong Authorization header", b,
   if decide (LogLevel config = LOG_DEBUG)
   then [Logged ["wrong Authorization header:"; GetHeader c "Authorization"]]
   else []).
Proof.
  rewrite authorized_guard. intros Hg%not_false_is_true. unfold SubmitAlert.
  rewrite Hg, run_bind, debug_Println_cases. run_ret. done.
Qed.

Lemma SubmitAlert_unbound c config b alerts e :
  authorized c config →
  ShouldBindJSON c = (alerts, Some e) →
  SubmitAlert LOG_DEBUG c config b =
  (error_response e, b,
   if decide (LogLevel config = LOG_DEBUG) then [Logged [e]] else []).
Proof.
  intros Hauth%authorized_guard Hbind. unfold SubmitAlert.
  rewrite Hauth, Hbind. simpl. rewrite run_bind, debug_Println_cases. run_ret. done.
Qed.

Lemma SubmitAlert_unlisted c config b alerts components e b1 :
  authorized c config →
  ShouldBindJSON c = (alerts, None) →
  ListComponents b = ((components, Some e), b1) →
  SubmitAlert LOG_DEBUG c config b =
  (error_response e, b1,
   Called CallListComponents (Some e)
   :: (if decide (LogLevel config = LOG_DEBUG) then [Logged [e]] else [])).
Proof.
  intros Hauth%authorized_guard Hbind Hlist. unfold SubmitAlert.
  rewrite Hauth, Hbind. destruct (target_status alerts) as [st cst]. simpl.
  rewrite run_bind. unfold Cachet_ListComponents. rewrite Hlist. simpl.
  rewrite run_bind, debug_Println_cases. run_ret. done.
Qed.

Lemma SubmitAlert_run c config b :
  ¬ authorized c config
  ∨ (authorized c config ∧ ∃ alerts e, ShouldBindJSON c = (alerts, Some e))
  ∨ (authorized c config
     ∧ ∃ alerts components e b1,
         ShouldBindJSON c = (alerts, None)
         ∧ ListComponents b = ((components, Some e), b1))
  ∨ (authorized c config
     ∧ ∃ alerts components b1 r fired b2 t,
         ShouldBindJSON c = (alerts, None)
         ∧ ListComponents b = ((components, None), b1)
         ∧ alerts_loop LOG_DEBUG config (target_status alerts).1 (target_status alerts).2
             components (Alerts alerts) ∅ b1 = ((r, fired), b2, t)
         ∧ SubmitAlert LOG_DEBUG c config b =
           (default ok_response r, b2, Called CallListComponents None :: t)).
Proof.
  destruct (bool_decide (PrometheusToken config ≠ EmptyString)
            && bool_decide (GetHeader c "Authorization"
                            ≠ Sprintf_bearer (PrometheusToken config))) eqn:Eg.
  { left. rewrite authorized_guard. by rewrite Eg. }
  apply authorized_guard in Eg. right.
  destruct (ShouldBindJSON c) as [alerts [e|]] eqn:Ebind; [left; by eauto|right].
  destruct (ListComponents b) as [[components [e|]] b1] eqn:Elist;
    [left; by eauto 10|right].
  split; [done|].
  destruct (alerts_loop LOG_DEBUG config (target_status alerts).1 (target_status alerts).2
              components (Alerts alerts) ∅ b1) as [[[r fired] b2] t] eqn:El.
  exists alerts, components, b1, r, fired, b2, t. repeat split; [done|].
  rewrite (SubmitAlert_accepted c config alerts b components b1 Eg Ebind Elist).
  by rewrite El.
Qed.

(** ** Requests that are refused before the loop *)

(** X1: with a token configured, a request whose [Authorization] header is
    not exactly ["Bearer "] followed by the token is answered 400 with
    ["wrong Authorization header"]; the status page is not called and its
    state is unchanged; the header is logged under [LOG_DEBUG] only. *)
Theorem wrong_bearer_is_refused c config b :
  PrometheusToken config ≠ EmptyString →
  GetHeader c "Authorization" ≠ Sprintf_bearer (PrometheusToken config) →
  SubmitAlert LOG_DEBUG c config b =
  (error_response "wrong Authorization header", b,
   if decide (LogLevel config = LOG_DEBUG)
   then [Logged ["wrong Authorization header:"; GetHeader c "Authorization"]]
   else []).
Proof.
  intros Htoken Hheader. unfold SubmitAlert.
  rewrite !bool_decide_eq_true_2 by done. simpl.
  rewrite run_bind, debug_Println_cases. run_ret. done.
Qed.

(** X2: with an empty token the headers of the request are not looked at:
    the invocation is the same whatever they are. *)
Theorem empty_token_disables_the_bearer_check c config b headers :
  PrometheusToken config = EmptyString →
  SubmitAlert LOG_DEBUG (with_headers c headers) config b =
  SubmitAlert LOG_DEBUG c config b.
Proof.
  intros Htoken. unfold SubmitAlert, with_headers; simpl.
  by rewrite Htoken.
Qed.

(** X3: an authorized request whose payload does not bind is answered 400
    with the binding error; the status page is not called and its state is
    unchanged; the error is logged under [LOG_DEBUG] only. *)
Theorem unbound_payload_is_refused c config b alerts e :
  authorized c config →
  ShouldBindJSON c = (alerts, Some e) →
  SubmitAlert LOG_DEBUG c config b =
  (error_response e, b,
   if decide (LogLevel config = LOG_DEBUG) then [Logged [e]] else []).
Proof.
  intros Hauth%authorized_guard Hbind. unfold SubmitAlert.
  rewrite Hauth, Hbind. simpl.
  rewrite run_bind, debug_Println_cases. run_ret. done.
Qed.

(** X14: when [ListComponents] fails, the invocation answers 400 with its
    error right away: no other client call is made, whatever the alerts of
    the payload are. *)
Theorem failed_listing_is_answered_at_once c config b alerts components e b1 :
  authorized c config →
  ShouldBindJSON c = (alerts, None) →
  ListComponents b = ((components, Some e), b1) →
  SubmitAlert LOG_DEBUG c config b =
  (error_response e, b1,
   Called CallListComponents (Some e)
   :: (if decide (LogLevel config = LOG_DEBUG) then [Logged [e]] else [])).
Proof.
  intros Hauth%authorized_guard Hbind Hlist. unfold SubmitAlert.
  rewrite Hauth, Hbind. destruct (target_status alerts) as [st cst]. simpl.
  rewrite run_bind. unfold Cachet_ListComponents. rewrite Hlist. simpl.
  rewrite run_bind, debug_Println_cases. run_ret. done.
Qed.

(** X13: when no alert of the batch has a label value that the directory
    knows (in particular when the batch is empty), the invocation lists the
    components, makes no other call and answers 200. *)
Theorem batch_without_known_component_is_ok c config b alerts components b1 :
  authorized c config →
  ShouldBindJSON c = (alerts, None) →
  ListComponents b = ((components, None), b1) →
  (∀ alert, alert ∈ Alerts alerts → components !! label_value config alert = None) →
  SubmitAlert LOG_DEBUG c config b =
  (ok_response, b1, [Called CallListComponents None]).
Proof.
  intros Hauth Hbind Hlist Hnone.
  rewrite (SubmitAlert_accepted c config alerts b components b1 Hauth Hbind Hlist).
  assert (∀ st cst fired,
            alerts_loop LOG_DEBUG config st cst components (Alerts alerts) fired b1 =
            ((None, fired), b1, [])) as ->; [|done].
  intros st cst fired. induction (Alerts alerts) as [|a l IH]; [done|].
  rewrite alerts_loop_cons, alert_body_unmapped by (apply Hnone; by left).
  rewrite after_nil. apply IH. intros alert Hin. apply Hnone. by right.
Qed.

(** ** Facts that hold of every effect of an invocation *)

Lemma alerts_loop_Forall (P : Effect → Prop) config st cst components l fired b :
  (∀ alert i b0, alert ∈ l → components !! label_value config alert = Some i →
     Forall P (fire LOG_DEBUG config st cst alert i b0).2) →
  Forall P (alerts_loop LOG_DEBUG config st cst components l fired b).2.
Proof.
  revert fired b. induction l as [|a l IH]; intros fired b Hfire; [by constructor|].
  rewrite alerts_loop_cons. unfold alert_body.
  destruct (components !! label_value config a) as [i|] eqn:E;
    [case_bool_decide|].
  - rewrite run_bind.
    specialize (Hfire a i b ltac:(by left) E) as Ha.
    destruct (fire _ _ _ _ _ _ _) as [[[resp|] b1] t1]; run_ret; [done|].
    apply Forall_app. split; [done|]. apply IH.
    intros alert j b0 Hin. apply Hfire. by right.
  - unfold mret, M_ret, ret; simpl. rewrite ?after_nil. apply IH.
    intros alert j b0 Hin. apply Hfire. by right.
  - unfold mret, M_ret, ret; simpl. rewrite ?after_nil. apply IH.
    intros alert j b0 Hin. apply Hfire. by right.
Qed.

Lemma SubmitAlert_Forall (P : Effect → Prop) c config b :
  (∀ args, P (Logged args)) →
  (∀ e, P (Called CallListComponents e)) →
  (∀ alert i b0,
     alert ∈ Alerts (ShouldBindJSON c).1 →
     (ListComponents b).1.1 !! label_value config alert = Some i →
     Forall P (fire LOG_DEBUG config (target_status (ShouldBindJSON c).1).1
                 (target_status (ShouldBindJSON c).1).2 alert i b0).2) →
  Forall P (SubmitAlert LOG_DEBUG c config b).2.
Proof.
  intros Hlog Hlist Hfire.
  assert (∀ args, Forall P (if decide (LogLevel config = LOG_DEBUG)
                            then [Logged args] else [])) as Hdebug.
  { intros args. destruct (decide _); by repeat constructor. }
  destruct (SubmitAlert_run c config b)
    as [Hno|[[Hauth (alerts & e & Hbind)]
       |[[Hauth (alerts & components & e & b1 & Hbind & Hl)]
        |[Hauth (alerts & components & b1 & r & fired & b2 & t & Hbind & Hl & El & Hs)]]]].
  - rewrite (SubmitAlert_unauthorized c config b Hno). apply Hdebug.
  - rewrite (SubmitAlert_unbound c config b alerts e Hauth Hbind). apply Hdebug.
  - rewrite (SubmitAlert_unlisted c config b alerts components e b1 Hauth Hbind Hl).
    simpl. constructor; [done|apply Hdebug].
  - rewrite Hs. simpl. constructor; [done|].
    rewrite Hbind, Hl in Hfire. simpl in Hfire.
    pose proof (alerts_loop_Forall P config _ _ components (Alerts alerts) ∅ b1 Hfire)
      as Hall.
    by rewrite El in Hall.
Qed.

Lemma only_calls_calls (p : Call → Prop) t :
  only_calls p t → Forall (λ cr, p cr.1) (calls t).
Proof.
  induction 1 as [|[c r|args] t Hp Ht IH]; simpl; [constructor|by constructor|done].
Qed.

Lemma fire_allowed config st cst alert i b firing :
  (st = 1 ↔ firing = false) →
  only_calls (λ c, allowed (SquashIncident config) firing c = true)
    (fire LOG_DEBUG config st cst alert i b).2.
Proof.
  intros Hst. destruct (fire LOG_DEBUG config st cst alert i b) as [[r b'] t] eqn:Hf.
  simpl. revert Hf. unfold fire.
  destruct (SquashIncident config); [case_bool_decide as Hne|].
  - assert (firing = true) as ->.
    { destruct firing; [done|]. exfalso. by apply Hne, Hst. }
    run_fire; intros; simplify_eq; unfold only_calls;
      repeat first [ by apply Forall_nil | apply Forall_cons; split; [done|] ].
  - assert (st = 1) as -> by (by destruct (decide (st = 1))).
    assert (firing = false) as -> by (by apply Hst).
    run_fire; intros; simplify_eq; unfold only_calls;
      repeat first [ by apply Forall_nil | apply Forall_cons; split; [done|] ].
  - run_fire; intros; simplify_eq; unfold only_calls;
      repeat first [ by apply Forall_nil | apply Forall_cons; split; [done|] ].
Qed.

Lemma fire_from_batch config st cst alert i b :
  only_calls (λ c, ∀ j, call_component c = Some j →
                j = i ∧ ∀ n, call_name c = Some n → n = label_value config alert)
    (fire LOG_DEBUG config st cst alert i b).2.
Proof.
  destruct (fire LOG_DEBUG config st cst alert i b) as [[r b'] t] eqn:Hf.
  simpl. revert Hf. run_fire; intros; simplify_eq; unfold only_calls;
    repeat first
      [ by apply Forall_nil
      | apply Forall_cons; split; [simpl; naive_solver|] ].
Qed.

Lemma fire_does_not_list config st cst alert i b :
  only_calls (λ c, c ≠ CallListComponents) (fire LOG_DEBUG config st cst alert i b).2.
Proof.
  destruct (fire LOG_DEBUG config st cst alert i b) as [[r b'] t] eqn:Hf.
  simpl. revert Hf. run_fire; intros; simplify_eq; unfold only_calls;
    repeat first [ by apply Forall_nil | apply Forall_cons; split; [done|] ].
Qed.

(** X4: the status page is called exactly when the request is authorized
    and its payload binds; then the first call is [ListComponents], and it
    is the only [ListComponents] call of the invocation. *)
Theorem backend_is_called_iff_accepted c config b :
  (calls (SubmitAlert LOG_DEBUG c config b).2 ≠ [] ↔
   authorized c config ∧ (ShouldBindJSON c).2 = None)
  ∧ ∀ first rest,
      calls (SubmitAlert LOG_DEBUG c config b).2 = first :: rest →
      first = (CallListComponents, (ListComponents b).1.2)
      ∧ Forall (λ cr, cr.1 ≠ CallListComponents) rest.
Proof.
  destruct (SubmitAlert_run c config b)
    as [Hno|[[Hauth (alerts & e & Hbind)]
       |[[Hauth (alerts & components & e & b1 & Hbind & Hl)]
        |[Hauth (alerts & components & b1 & r & fired & b2 & t & Hbind & Hl & El & Hs)]]]].
  - rewrite (SubmitAlert_unauthorized c config b Hno). simpl.
    rewrite (log_lines_calls _ (debug_lines config _)).
    split; [|done]. split; [done|]. by intros [? _].
  - rewrite (SubmitAlert_unbound c config b alerts e Hauth Hbind). simpl.
    rewrite (log_lines_calls _ (debug_lines config _)).
    split; [|done]. rewrite Hbind. split; [done|]. by intros [_ ?].
  - rewrite (SubmitAlert_unlisted c config b alerts components e b1 Hauth Hbind Hl).
    simpl. rewrite (log_lines_calls _ (debug_lines config _)), Hbind, Hl.
    split; [done|]. by intros first rest [= <- <-].
  - rewrite Hs, Hbind, Hl. simpl. split; [done|].
    intros first rest [= <- <-]. split; [done|].
    apply (only_calls_calls (λ c, c ≠ CallListComponents)).
    pose proof (alerts_loop_Forall
      (λ e, match e with Called c _ => c ≠ CallListComponents | Logged _ => True end)
      config (target_status alerts).1 (target_status alerts).2 components
      (Alerts alerts) ∅ b1) as Hall.
    rewrite El in Hall. apply Hall. intros alert i b0 _ _.
    apply fire_does_not_list.
Qed.

(** X9: the calls of an invocation are those of its mode.  Without
    squashing it only lists the components and creates incidents; in squash
    mode for a firing group it lists, searches and creates; in squash mode
    for any other group it lists, searches, updates with status 1 and
    reads. *)
Theorem calls_follow_the_mode c config b :
  only_calls
    (λ call, allowed (SquashIncident config)
               (bool_decide (Status (ShouldBindJSON c).1 = "firing")) call = true)
    (SubmitAlert LOG_DEBUG c config b).2.
Proof.
  apply SubmitAlert_Forall; [done|done|].
  intros alert i b0 _ _. apply fire_allowed.
  unfold target_status. case_decide as Hf; simpl.
  - by rewrite bool_decide_eq_true_2.
  - by rewrite bool_decide_eq_false_2.
Qed.

(** X10: every search, create and update call of an invocation is about a
    component that the listed directory gives for the label value of an
    alert of the batch, and create and update calls are made under that
    label value. *)
Theorem calls_are_about_the_batch c config b :
  only_calls
    (from_batch config (ListComponents b).1.1 (Alerts (ShouldBindJSON c).1))
    (SubmitAlert LOG_DEBUG c config b).2.
Proof.
  apply SubmitAlert_Forall; [done|by intros e i [=]|].
  intros alert i b0 Hin Hsome.
  eapply Forall_impl; [apply (fire_from_batch config _ _ alert i b0)|].
  intros [call err|args]; [|done]. intros Hcall j Hj.
  destruct (Hcall j Hj) as [-> Hname]. by exists alert.
Qed.

(** ** What an answer tells *)

Lemma ok_is_not_an_error e : ok_response ≠ error_response e.
Proof.
  intros Heq.
  apply (f_equal (λ r, match r with JSON code _ => code end)) in Heq.
  discriminate Heq.
Qed.

Lemma ends_with_failure_after e t1 t :
  ends_with_failure e t → ends_with_failure e (t1 ++ t).
Proof.
  intros (t0 & c & logs & -> & Hc & Hlogs).
  exists (t1 ++ t0), c, logs. by rewrite app_assoc.
Qed.

Lemma ends_with_empty_search_after e t1 t :
  ends_with_empty_search e t → ends_with_empty_search e (t1 ++ t).
Proof.
  intros (t0 & i & -> & He). exists (t1 ++ t0), i. by rewrite app_assoc.
Qed.

Lemma fire_answer config st cst alert i b resp b' t :
  fire LOG_DEBUG config st cst alert i b = (Some resp, b', t) →
  ∃ e, resp = error_response e
       ∧ (ends_with_failure e t
          ∨ (ends_with_empty_search e t ∧ SquashIncident config = true ∧ st = 1)).
Proof.
  intros Hf. revert Hf. run_fire; intros; simplify_eq;
    (eexists; split; [reflexivity|]);
    first
      [ left; eexists [], _, _; split; [reflexivity|split; [done|trace_facts]]
      | left; eexists [_], _, _; split; [reflexivity|split; [done|trace_facts]]
      | right; split; [by eexists [], _|];
        split; [done|];
        match goal with
        | H : bool_decide (_ ≠ _) = false |- _ =>
          apply bool_decide_eq_false in H; by apply dec_stable in H
        end ].
Qed.

Lemma fire_continues_unlogged config st cst alert i b b' t :
  fire LOG_DEBUG config st cst alert i b = (None, b', t) → unlogged t.
Proof.
  intros Hf. revert Hf. run_fire; intros; simplify_eq; unfold unlogged;
    repeat first [ by apply Forall_nil | apply Forall_cons; split; [done|] ].
Qed.

Lemma alerts_loop_answer config st cst components l fired b resp fired' b' t :
  alerts_loop LOG_DEBUG config st cst components l fired b = ((Some resp, fired'), b', t) →
  ∃ e, resp = error_response e
       ∧ (ends_with_failure e t
          ∨ (ends_with_empty_search e t ∧ SquashIncident config = true ∧ st = 1)).
Proof.
  revert fired b t. induction l as [|a l IH]; intros fired b t; [done|].
  rewrite alerts_loop_cons. unfold alert_body.
  destruct (components !! label_value config a) as [i|]; [case_bool_decide|].
  - rewrite run_bind. destruct (fire _ _ _ _ _ _ _) as [[r1 b1] t1] eqn:Ef.
    destruct r1 as [resp1|]; run_ret.
    + intros [= <- <- <- <-]. by eapply fire_answer.
    + destruct (alerts_loop _ _ _ _ _ l _ _) as [[[r2 fired2] b2] t2] eqn:El.
      simpl. intros [= -> <- <- <-].
      destruct (IH _ _ _ El) as (e & -> & [Hfail|(Hempty & Hsq & Hst)]).
      * exists e. split; [done|]. left. by apply ends_with_failure_after.
      * exists e. split; [done|]. right.
        split; [by apply ends_with_empty_search_after|done].
  - unfold mret, M_ret, ret; simpl. rewrite ?after_nil. apply IH.
  - unfold mret, M_ret, ret; simpl. rewrite ?after_nil. apply IH.
Qed.

Lemma alerts_loop_continues_unlogged config st cst components l fired b fired' b' t :
  alerts_loop LOG_DEBUG config st cst components l fired b = ((None, fired'), b', t) →
  unlogged t.
Proof.
  revert fired b t. induction l as [|a l IH]; intros fired b t.
  - simpl. run_ret. intros [= <- <- <-]. constructor.
  - rewrite alerts_loop_cons. unfold alert_body.
    destruct (components !! label_value config a) as [i|]; [case_bool_decide|].
    + rewrite run_bind. destruct (fire _ _ _ _ _ _ _) as [[r1 b1] t1] eqn:Ef.
      destruct r1 as [resp1|]; run_ret; [done|].
      destruct (alerts_loop _ _ _ _ _ l _ _) as [[[r2 fired2] b2] t2] eqn:El.
      simpl. intros [= -> <- <- <-]. apply Forall_app. split.
      * by eapply fire_continues_unlogged.
      * by eapply IH.
    + unfold mret, M_ret, ret; simpl. rewrite ?after_nil. apply IH.
    + unfold mret, M_ret, ret; simpl. rewrite ?after_nil. apply IH.
Qed.

(** X5: an invocation that answers 200 was authorized, its payload bound,
    it began with a successful [ListComponents], none of its list, search
    or create calls failed, and it logged nothing. *)
Theorem ok_answer_means_clean_run c config b b' t :
  SubmitAlert LOG_DEBUG c config b = (ok_response, b', t) →
  authorized c config
  ∧ (ShouldBindJSON c).2 = None
  ∧ (∃ t', t = Called CallListComponents None :: t')
  ∧ quiet t ∧ unlogged t.
Proof.
  destruct (SubmitAlert_run c config b)
    as [Hno|[[Hauth (alerts & e & Hbind)]
       |[[Hauth (alerts & components & e & b1 & Hbind & Hl)]
        |[Hauth (alerts & components & b1 & r & fired & b2 & t2 & Hbind & Hl & El & Hs)]]]].
  - rewrite (SubmitAlert_unauthorized c config b Hno).
    intros Hr. apply (f_equal (λ x, x.1.1)) in Hr. simpl in Hr.
    by destruct (ok_is_not_an_error _ (eq_sym Hr)).
  - rewrite (SubmitAlert_unbound c config b alerts e Hauth Hbind).
    intros Hr. apply (f_equal (λ x, x.1.1)) in Hr. simpl in Hr.
    by destruct (ok_is_not_an_error _ (eq_sym Hr)).
  - rewrite (SubmitAlert_unlisted c config b alerts components e b1 Hauth Hbind Hl).
    intros Hr. apply (f_equal (λ x, x.1.1)) in Hr. simpl in Hr.
    by destruct (ok_is_not_an_error _ (eq_sym Hr)).
  - rewrite Hs. destruct r as [resp|]; simpl.
    + destruct (alerts_loop_answer _ _ _ _ _ _ _ _ _ _ _ El) as (e & -> & _).
      intros Hr. apply (f_equal (λ x, x.1.1)) in Hr. simpl in Hr.
    by destruct (ok_is_not_an_error _ (eq_sym Hr)).
    + intros [= <- <-]. rewrite Hbind.
      split; [done|]. split; [done|]. split; [by eexists|]. split.
      * constructor; [done|]. by apply alerts_loop_settled in El.
      * constructor; [done|]. by eapply alerts_loop_continues_unlogged.
Qed.

(** X6: every answer is either 200 [{"status": "OK"}] or 400 with an error
    message, and a 400 has one of four causes: the bearer was refused, or
    the payload did not bind (no client call in both cases), or the last
    client call was a list, search or create call that failed with this
    error, or, in squash mode for a group that is not firing, the last
    client call was a successful search and the message is the one for a
    component without incident. *)
Theorem answers_and_their_causes c config b resp b' t :
  SubmitAlert LOG_DEBUG c config b = (resp, b', t) →
  resp = ok_response
  ∨ ∃ e, resp = error_response e
      ∧ ((¬ authorized c config ∧ e = "wrong Authorization header" ∧ calls t = [])
         ∨ ((ShouldBindJSON c).2 = Some e ∧ calls t = [])
         ∨ ends_with_failure e t
         ∨ (ends_with_empty_search e t
            ∧ SquashIncident config = true
            ∧ Status (ShouldBindJSON c).1 ≠ "firing")).
Proof.
  destruct (SubmitAlert_run c config b)
    as [Hno|[[Hauth (alerts & e & Hbind)]
       |[[Hauth (alerts & components & e & b1 & Hbind & Hl)]
        |[Hauth (alerts & components & b1 & r & fired & b2 & t2 & Hbind & Hl & El & Hs)]]]].
  - rewrite (SubmitAlert_unauthorized c config b Hno). intros [= <- <- <-].
    right. eexists. split; [done|]. left.
    by rewrite (log_lines_calls _ (debug_lines config _)).
  - rewrite (SubmitAlert_unbound c config b alerts e Hauth Hbind). intros [= <- <- <-].
    right. exists e. split; [done|]. right; left. rewrite Hbind.
    by rewrite (log_lines_calls _ (debug_lines config _)).
  - rewrite (SubmitAlert_unlisted c config b alerts components e b1 Hauth Hbind Hl).
    intros [= <- <- <-]. right. exists e. split; [done|]. right; right; left.
    eexists [], CallListComponents, _. split; [done|]. split; [done|apply debug_lines].
  - rewrite Hs. intros [= <- <- <-]. destruct r as [resp|]; simpl; [right|by left].
    destruct (alerts_loop_answer _ _ _ _ _ _ _ _ _ _ _ El)
      as (e & -> & [Hfail|(Hempty & Hsq & Hst)]);
      exists e; (split; [done|]); right; right.
    + left. by apply (ends_with_failure_after e [_]).
    + right. split; [by apply (ends_with_empty_search_after e [_])|].
      split; [done|]. rewrite Hbind. simpl. intros Hfiring.
      revert Hst. unfold target_status. by rewrite decide_True.
Qed.

(** ** The log *)

Lemma observable_after {A} t (x : A * B * Trace) :
  observable (after t x) = (x.1.1, x.1.2, calls t ++ calls x.2).
Proof. unfold observable, after; simpl. by rewrite calls_app. Qed.

Lemma fire_with_level config level st cst alert i b :
  observable (fire LOG_DEBUG (with_level config level) st cst alert i b) =
  observable (fire LOG_DEBUG config st cst alert i b).
Proof.
  unfold observable, fire, squash_firing, squash_resolved, squash_resolved_with,
    no_squash, debug_Println, log_Println, label_value,
    Cachet_SearchIncidents, Cachet_CreateIncident, Cachet_UpdateIncident,
    Cachet_ReadIncident, mbind, M_bind, bind, mret, M_ret, ret; simpl.
  repeat case_match; by simplify_eq/=.
Qed.

Lemma alerts_loop_with_level config level st cst components l fired b :
  observable (alerts_loop LOG_DEBUG (with_level config level) st cst components l fired b) =
  observable (alerts_loop LOG_DEBUG config st cst components l fired b).
Proof.
  revert fired b. induction l as [|a l IH]; intros fired b; [done|].
  rewrite !alerts_loop_cons. unfold alert_body.
  change (label_value (with_level config level) a) with (label_value config a).
  destruct (components !! label_value config a) as [i|]; [case_bool_decide|].
  - rewrite !run_bind.
    pose proof (fire_with_level config level st cst a i b) as Hfire.
    destruct (fire LOG_DEBUG (with_level config level) st cst a i b) as [[r1 b1] t1].
    destruct (fire LOG_DEBUG config st cst a i b) as [[r2 b2] t2].
    unfold observable in Hfire; simpl in Hfire. injection Hfire as -> -> Hcalls.
    destruct r2 as [resp|]; run_ret.
    + unfold observable; simpl. by rewrite Hcalls.
    + fold (after t1 (alerts_loop LOG_DEBUG (with_level config level) st cst components l
                        (<[i:=1]> fired) b2)).
      fold (after t2 (alerts_loop LOG_DEBUG config st cst components l
                        (<[i:=1]> fired) b2)).
      rewrite !observable_after.
      specialize (IH (<[i:=1]> fired) b2). unfold observable in IH.
      injection IH as -> -> ->. by rewrite Hcalls.
  - unfold mret, M_ret, ret; simpl. rewrite ?after_nil. apply IH.
  - unfold mret, M_ret, ret; simpl. rewrite ?after_nil. apply IH.
Qed.

(** X7: the log level has no influence on what an invocation does: with
    any other level the response, the final state of the status page and
    the client calls with their results are the same. *)
Theorem log_level_does_not_interfere c config b level :
  observable (SubmitAlert LOG_DEBUG c (with_level config level) b) =
  observable (SubmitAlert LOG_DEBUG c config b).
Proof.
  assert (∀ (lvl : LogLevelT) args,
            calls (if decide (lvl = LOG_DEBUG) then [Logged args] else []) = [])
    as Hdebug.
  { intros lvl args. by destruct (decide _). }
  assert (authorized c (with_level config level) ↔ authorized c config) as Hsame by done.
  destruct (SubmitAlert_run c config b)
    as [Hno|[[Hauth (alerts & e & Hbind)]
       |[[Hauth (alerts & components & e & b1 & Hbind & Hl)]
        |[Hauth (alerts & components & b1 & r & fired & b2 & t & Hbind & Hl & El & Hs)]]]].
  - rewrite (SubmitAlert_unauthorized c config b Hno).
    rewrite (SubmitAlert_unauthorized c (with_level config level) b)
      by (by rewrite Hsame).
    unfold observable; simpl. by rewrite !Hdebug.
  - rewrite (SubmitAlert_unbound c config b alerts e Hauth Hbind).
    rewrite (SubmitAlert_unbound c (with_level config level) b alerts e)
      by (done || by rewrite Hsame).
    unfold observable; simpl. by rewrite !Hdebug.
  - rewrite (SubmitAlert_unlisted c config b alerts components e b1 Hauth Hbind Hl).
    rewrite (SubmitAlert_unlisted c (with_level config level) b alerts components e b1)
      by (done || by rewrite Hsame).
    unfold observable; simpl. by rewrite !Hdebug.
  - rewrite Hs.
    rewrite (SubmitAlert_accepted c (with_level config level) alerts b components b1)
      by (done || by rewrite Hsame).
    pose proof (alerts_loop_with_level config level (target_status alerts).1
                  (target_status alerts).2 components (Alerts alerts) ∅ b1) as Hloop.
    rewrite El in Hloop.
    destruct (alerts_loop LOG_DEBUG (with_level config level) _ _ _ _ _ _)
      as [[[r' fired'] b2'] t'].
    unfold observable in *; simpl in *. by injection Hloop as -> -> -> ->.
Qed.

Lemma fire_unlogged config st cst alert i b :
  LogLevel config ≠ LOG_DEBUG →
  unlogged (fire LOG_DEBUG config st cst alert i b).2.
Proof.
  intros Hoff. destruct (fire LOG_DEBUG config st cst alert i b) as [[r b'] t] eqn:Hf.
  simpl. revert Hf. run_fire; intros; simplify_eq; unfold unlogged;
    repeat first [ by apply Forall_nil | apply Forall_cons; split; [done|] ].
Qed.

(** X8: unless the log level is [LOG_DEBUG], an invocation logs nothing. *)
Theorem nothing_is_logged_below_debug c config b :
  LogLevel config ≠ LOG_DEBUG →
  unlogged (SubmitAlert LOG_DEBUG c config b).2.
Proof.
  intros Hoff.
  destruct (SubmitAlert_run c config b)
    as [Hno|[[Hauth (alerts & e & Hbind)]
       |[[Hauth (alerts & components & e & b1 & Hbind & Hl)]
        |[Hauth (alerts & components & b1 & r & fired & b2 & t & Hbind & Hl & El & Hs)]]]].
  - rewrite (SubmitAlert_unauthorized c config b Hno). simpl.
    rewrite decide_False by done. constructor.
  - rewrite (SubmitAlert_unbound c config b alerts e Hauth Hbind). simpl.
    rewrite decide_False by done. constructor.
  - rewrite (SubmitAlert_unlisted c config b alerts components e b1 Hauth Hbind Hl).
    simpl. rewrite decide_False by done. by repeat constructor.
  - rewrite Hs. simpl. constructor; [done|].
    pose proof (alerts_loop_Forall
      (λ e, match e with Logged _ => False | Called _ _ => True end)
      config (target_status alerts).1 (target_status alerts).2 components
      (Alerts alerts) ∅ b1) as Hall.
    rewrite El in Hall. apply Hall. intros alert i b0 _ _. by apply fire_unlogged.
Qed.

(** ** Which components are handled *)

Lemma resolved_cons config components a l :
  resolved config components (a :: l) =
  match components !! label_value config a with
  | Some i => i :: resolved config components l
  | None => resolved config components l
  end.
Proof. reflexivity. Qed.

(** X12: when the loop has gone through a list of alerts without answering,
    the components marked in [alreadyFired] are those that were marked
    before and those that the directory gives for an alert of the list. *)
Theorem already_fired_marks_the_resolved_components
    config st cst components l fired b fired' b' t i :
  alerts_loop LOG_DEBUG config st cst components l fired b = ((None, fired'), b', t) →
  default 0 (fired' !! i) ≠ 0 ↔
  default 0 (fired !! i) ≠ 0 ∨ i ∈ resolved config components l.
Proof.
  revert fired b t. induction l as [|a l IH]; intros fired b t.
  - simpl. run_ret. intros [= <- <- <-]. split; [by left|].
    intros [?|?%elem_of_nil]; done.
  - rewrite alerts_loop_cons, resolved_cons. unfold alert_body.
    destruct (components !! label_value config a) as [j|]; [case_bool_decide as Hnew|].
    + rewrite run_bind. destruct (fire _ _ _ _ _ _ _) as [[[resp|] b1] t1]; run_ret; [done|].
      destruct (alerts_loop _ _ _ _ _ l _ _) as [[[r2 fired2] b2] t2] eqn:El.
      simpl. intros [= -> <- <- <-]. rewrite (IH _ _ _ El), elem_of_cons.
      destruct (decide (i = j)) as [->|Hne].
      * rewrite lookup_insert_eq. simpl. split; [by auto|by left].
      * rewrite lookup_insert_ne by done. tauto.
    + unfold mret, M_ret, ret; simpl. rewrite ?after_nil. intros El.
      rewrite (IH _ _ _ El), elem_of_cons.
      split; [tauto|]. intros [?|[->|?]]; by auto.
    + unfold mret, M_ret, ret; simpl. rewrite ?after_nil. apply IH.
Qed.

Lemma fire_handles_once config st cst alert i b :
  (if SquashIncident config
   then searches i (fire LOG_DEBUG config st cst alert i b).2
   else creates i (fire LOG_DEBUG config st cst alert i b).2) = 1%nat.
Proof.
  destruct (fire LOG_DEBUG config st cst alert i b) as [[r b'] t] eqn:Hf.
  simpl. revert Hf. unfold fire.
  destruct (SquashIncident config); run_fire; intros; simplify_eq;
    unfold searches, creates, count_calls; simpl;
    by rewrite ?bool_decide_eq_true_2 by done.
Qed.

Lemma alerts_loop_handles_once config st cst components l fired b fired' b' t i :
  alerts_loop LOG_DEBUG config st cst components l fired b = ((None, fired'), b', t) →
  (if SquashIncident config then searches i t else creates i t) =
  if decide (default 0 (fired !! i) = 0 ∧ i ∈ resolved config components l)
  then 1%nat else 0%nat.
Proof.
  revert fired b t. induction l as [|a l IH]; intros fired b t.
  - simpl. run_ret. intros [= <- <- <-].
    rewrite decide_False by (intros [_ ?%elem_of_nil]; done).
    by destruct (SquashIncident config).
  - rewrite alerts_loop_cons, resolved_cons. unfold alert_body.
    destruct (components !! label_value config a) as [j|]; [case_bool_decide as Hnew|].
    + rewrite run_bind.
      pose proof (fire_handles_once config st cst a j b) as Hone.
      destruct (fire _ _ _ _ _ _ _) as [[r1 b1] t1] eqn:Ef.
      destruct (fire_counts _ _ _ _ _ _ _ _ _ Ef) as [_ Hother].
      destruct r1 as [resp|]; run_ret; [done|].
      destruct (alerts_loop _ _ _ _ _ l _ _) as [[[r2 fired2] b2] t2] eqn:El.
      simpl in *. intros [= -> <- <- <-].
      specialize (IH _ _ _ El).
      assert ((if SquashIncident config
               then searches i (t1 ++ t2) else creates i (t1 ++ t2)) =
              ((if SquashIncident config then searches i t1 else creates i t1)
               + (if SquashIncident config then searches i t2 else creates i t2))%nat)
        as ->.
      { unfold searches, creates. by destruct (SquashIncident config);
          rewrite count_calls_app. }
      rewrite IH. destruct (decide (i = j)) as [->|Hne].
      * rewrite lookup_insert_eq, Hone. simpl.
        rewrite decide_True; [done|]. split; [done|by left].
      * rewrite lookup_insert_ne by done. destruct (Hother i Hne) as (-> & -> & _).
        assert ((if SquashIncident config then 0%nat else 0%nat) = 0%nat) as ->
          by (by destruct (SquashIncident config)).
        simpl. apply (decide_ext _ _). rewrite elem_of_cons. tauto.
    + unfold mret, M_ret, ret; simpl. rewrite ?after_nil. intros El.
      rewrite (IH _ _ _ El). apply (decide_ext _ _). rewrite elem_of_cons.
      split; [tauto|]. intros [Hz [->|?]]; [done|by auto].
    + unfold mret, M_ret, ret; simpl. rewrite ?after_nil. apply IH.
Qed.

(** X11: in an invocation that answers 200, every component that the
    directory gives for an alert of the batch is handled exactly once, and
    no other component is handled: in squash mode its incidents are searched
    once, without squashing one incident is created for it. *)
Theorem ok_answer_handles_each_component_once c config b b' t i :
  SubmitAlert LOG_DEBUG c config b = (ok_response, b', t) →
  (if SquashIncident config then searches i t else creates i t) =
  if decide (i ∈ resolved config (ListComponents b).1.1 (Alerts (ShouldBindJSON c).1))
  then 1%nat else 0%nat.
Proof.
  destruct (SubmitAlert_run c config b)
    as [Hno|[[Hauth (alerts & e & Hbind)]
       |[[Hauth (alerts & components & e & b1 & Hbind & Hl)]
        |[Hauth (alerts & components & b1 & r & fired & b2 & t2 & Hbind & Hl & El & Hs)]]]].
  - rewrite (SubmitAlert_unauthorized c config b Hno).
    intros Hr. apply (f_equal (λ x, x.1.1)) in Hr. simpl in Hr.
    by destruct (ok_is_not_an_error _ (eq_sym Hr)).
  - rewrite (SubmitAlert_unbound c config b alerts e Hauth Hbind).
    intros Hr. apply (f_equal (λ x, x.1.1)) in Hr. simpl in Hr.
    by destruct (ok_is_not_an_error _ (eq_sym Hr)).
  - rewrite (SubmitAlert_unlisted c config b alerts components e b1 Hauth Hbind Hl).
    intros Hr. apply (f_equal (λ x, x.1.1)) in Hr. simpl in Hr.
    by destruct (ok_is_not_an_error _ (eq_sym Hr)).
  - rewrite Hs, Hbind, Hl. destruct r as [resp|]; simpl.
    + destruct (alerts_loop_answer _ _ _ _ _ _ _ _ _ _ _ El) as (e & -> & _).
      intros Hr. apply (f_equal (λ x, x.1.1)) in Hr. simpl in Hr.
      by destruct (ok_is_not_an_error _ (eq_sym Hr)).
    + intros [= <- <-].
      pose proof (alerts_loop_handles_once _ _ _ _ _ _ _ _ _ _ i El) as Hloop.
      rewrite lookup_empty in Hloop. simpl in Hloop.
      assert ((if SquashIncident config
               then searches i (Called CallListComponents None :: t2)
               else creates i (Called CallListComponents None :: t2)) =
              (if SquashIncident config then searches i t2 else creates i t2)) as ->
        by (by destruct (SquashIncident config)).
      rewrite Hloop. apply (decide_ext _ _). tauto.
Qed.

End Properties.

(** * The handler on concrete requests *)

(** C1: in squash mode, a firing alert for a component whose most recent
    incident is open (status 4) makes the handler create one more incident,
    and a firing alert for a component whose most recent incident is closed
    (status 1) makes it create none. *)
Theorem squash_firing_creates_beside_an_open_incident :
  (Fixture.submit Fixture.healthy true
     (Fixture.group "firing" [Fixture.alert "api"]) Fixture.open_incident).2 =
  [Called CallListComponents None;
   Called (CallSearchIncidents 42) None;
   Called (CallCreateIncident "api" 42 4 4) None]
  ∧ (Fixture.submit Fixture.healthy true
       (Fixture.group "firing" [Fixture.alert "api"]) Fixture.closed_incident).2 =
    [Called CallListComponents None;
     Called (CallSearchIncidents 42) None].
Proof. split; vm_compute; reflexivity. Qed.


(** A group whose status is neither ["resolved"] nor ["firing"] gets the
    code 1, not 4. *)
Lemma pending_group_gets_the_resolved_code :
  Status (Fixture.group "pending" [Fixture.alert "api"]) ≠ "resolved"
  ∧ target_status (Fixture.group "pending" [Fixture.alert "api"]) ≠ (4, 4)
  ∧ (Fixture.submit Fixture.healthy false
       (Fixture.group "pending" [Fixture.alert "api"]) []).2 =
    [Called CallListComponents None;
     Called (CallCreateIncident "api" 42 1 1) None].
Proof. split; [discriminate|]. split; [discriminate|]. vm_compute; reflexivity. Qed.

(** * The theorems at concrete requests *)

Lemma unmapped_alert_is_skipped_at_db :
  (Alerts (ShouldBindJSON (Fixture.request
     (Fixture.group "firing" [Fixture.alert "db"; Fixture.alert "api"]))).1 =
   [] ++ Fixture.alert "db" :: [Fixture.alert "api"]
   ∧ Fixture.api !! "db" = None)
  ∧ ((∀ st cst fired b1,
        Fixture.body Fixture.healthy true st cst Fixture.api (Fixture.alert "db") fired b1 =
        ((None, fired), b1, []))
     ∧ Fixture.submit Fixture.healthy true
         (Fixture.group "firing" [Fixture.alert "db"; Fixture.alert "api"]) [] =
       Fixture.submit Fixture.healthy true
         (Fixture.group "firing" [Fixture.alert "api"]) []).
Proof.
  split; [split; vm_compute; reflexivity|].
  apply (unmapped_alert_is_skipped (cachet := Page.client Fixture.healthy)
           (gotime := Clock.go_time) true
           (Fixture.request (Fixture.group "firing" [Fixture.alert "db"; Fixture.alert "api"]))
           (Fixture.config true) [] [] (Fixture.alert "db") [Fixture.alert "api"]);
    vm_compute; reflexivity.
Defined.

Lemma repeated_component_is_skipped_at_api :
  (Alerts (ShouldBindJSON (Fixture.request
     (Fixture.group "firing" [Fixture.alert "api"; Fixture.alert "api"]))).1 =
   [] ++ Fixture.alert "api" :: [] ++ Fixture.alert "api" :: []
   ∧ Fixture.api !! "api" = Some 42)
  ∧ (Fixture.submit Fixture.healthy true
       (Fixture.group "firing" [Fixture.alert "api"; Fixture.alert "api"]) [] =
     Fixture.submit Fixture.healthy true
       (Fixture.group "firing" [Fixture.alert "api"]) []
     ∧ ∀ i,
         (searches i (Fixture.submit Fixture.healthy true
            (Fixture.group "firing" [Fixture.alert "api"; Fixture.alert "api"]) []).2 ≤ 1
          ∧ creates i (Fixture.submit Fixture.healthy true
              (Fixture.group "firing" [Fixture.alert "api"; Fixture.alert "api"]) []).2 ≤ 1
          ∧ updates i (Fixture.submit Fixture.healthy true
              (Fixture.group "firing" [Fixture.alert "api"; Fixture.alert "api"]) []).2 ≤ 2)%nat).
Proof.
  split; [split; vm_compute; reflexivity|].
  apply (repeated_component_is_skipped (cachet := Page.client Fixture.healthy)
           (gotime := Clock.go_time) true
           (Fixture.request (Fixture.group "firing" [Fixture.alert "api"; Fixture.alert "api"]))
           (Fixture.config true) [] [] (Fixture.alert "api") [] (Fixture.alert "api") [] 42);
    vm_compute; reflexivity.
Defined.

Lemma missing_label_reads_as_empty_at_unnamed :
  Labels Fixture.unlabelled !! LabelName (Fixture.config false) = None
  ∧ (label_value (Fixture.config false) Fixture.unlabelled = EmptyString
     ∧ (Fixture.unnamed !! EmptyString = None →
        Fixture.body Fixture.healthy false 4 4 Fixture.unnamed Fixture.unlabelled ∅ [] =
        ((None, ∅), [], []))
     ∧ (∀ componentID,
          Fixture.unnamed !! EmptyString = Some componentID →
          default 0 ((∅ : gmap Z Z) !! componentID) = 0 →
          ∃ r b' t,
            Fixture.body Fixture.healthy false 4 4 Fixture.unnamed Fixture.unlabelled ∅ [] =
              ((r, <[componentID := 1]> ∅), b', t)
            ∧ Fixture.block Fixture.healthy false 4 4 Fixture.unlabelled componentID [] =
              (r, b', t)
            ∧ named EmptyString t ∧ calls t ≠ [])).
Proof.
  split; [vm_compute; reflexivity|].
  apply (missing_label_reads_as_empty (cachet := Page.client Fixture.healthy)
           (gotime := Clock.go_time) true (Fixture.config false) 4 4
           Fixture.unnamed Fixture.unlabelled ∅ []).
  vm_compute; reflexivity.
Defined.

Lemma squash_resolved_inner_else_is_dead_at_api :
  (Page.search_incidents Fixture.healthy 42 Fixture.open_incident =
     ((Fixture.incident 1 4 "2024-01-01 10:00:00" :: [], None), Fixture.open_incident)
   ∧ Page.update_incident Fixture.healthy "api" 42 1 1
       "Prometheus flagged service api as up" Fixture.open_incident =
     (None, Fixture.resolved_incident))
  ∧ (squash_resolved_with (cachet := Page.client Fixture.healthy)
       (gotime := Clock.go_time) (λ _, mret None)
       (Fixture.config true) 1 (Fixture.alert "api") 42 Fixture.open_incident =
     squash_resolved (cachet := Page.client Fixture.healthy)
       (gotime := Clock.go_time)
       (Fixture.config true) 1 (Fixture.alert "api") 42 Fixture.open_incident
     ∧ ∃ b' t,
         squash_resolved (cachet := Page.client Fixture.healthy)
           (gotime := Clock.go_time)
           (Fixture.config true) 1 (Fixture.alert "api") 42 Fixture.open_incident =
         (None, b',
          Called (CallSearchIncidents 42) None
          :: Called (CallUpdateIncident "api" 42 1 1
                       "Prometheus flagged service api as up") None
          :: t)).
Proof.
  split; [split; vm_compute; reflexivity|].
  apply (squash_resolved_inner_else_is_dead (cachet := Page.client Fixture.healthy)
           (gotime := Clock.go_time) (λ _, mret None)
           (Fixture.config true) 1 (Fixture.alert "api") 42 Fixture.open_incident
           (Fixture.incident 1 4 "2024-01-01 10:00:00") [] Fixture.open_incident
           None Fixture.resolved_incident);
    vm_compute; reflexivity.
Defined.

Lemma resolution_reports_downtime_at_api :
  (SquashIncident (Fixture.config true) = true
   ∧ Fixture.api !! label_value (Fixture.config true) (Fixture.alert "api") = Some 42
   ∧ default 0 ((∅ : gmap Z Z) !! 42) = 0
   ∧ Page.search_incidents Fixture.healthy 42 Fixture.open_incident =
       ((Fixture.incident 1 4 "2024-01-01 10:00:00" :: [], None), Fixture.open_incident)
   ∧ Page.update_incident Fixture.healthy "api" 42 1 1
       "Prometheus flagged service api as up" Fixture.open_incident =
       (None, Fixture.resolved_incident)
   ∧ Page.read_incident Fixture.healthy 1 Fixture.resolved_incident =
       ((Fixture.incident 1 1 "2024-01-01 10:42:30", None), Fixture.resolved_incident)
   ∧ Clock.parse "2006-01-02 15:04:05" "2024-01-01 10:00:00" = (1704103200, None)
   ∧ Clock.parse "2006-01-02 15:04:05" "2024-01-01 10:42:30" = (1704105750, None)
   ∧ Page.update_incident Fixture.healthy "api" 42 1 1
       "Prometheus flagged service api as up (service was down for 42 minutes)"
       Fixture.resolved_incident =
       (None, Fixture.resolved_incident))
  ∧ Fixture.loop Fixture.healthy true 1 1 Fixture.api [Fixture.alert "api"] ∅
      Fixture.open_incident =
    ((None, {[ 42 := 1 ]}), Fixture.resolved_incident,
     [Called (CallSearchIncidents 42) None;
      Called (CallUpdateIncident "api" 42 1 1 "Prometheus flagged service api as up") None;
      Called (CallReadIncident 1) None;
      Called (CallUpdateIncident "api" 42 1 1
        "Prometheus flagged service api as up (service was down for 42 minutes)") None]).
Proof.
  split; [repeat split; vm_compute; reflexivity|].
  unfold Fixture.loop.
  rewrite (resolution_reports_downtime_when_timestamps_parse
             (cachet := Page.client Fixture.healthy) (gotime := Clock.go_time) true
             (Fixture.config true) 1 Fixture.api (Fixture.alert "api") [] 42 ∅
             Fixture.open_incident
             (Fixture.incident 1 4 "2024-01-01 10:00:00") [] Fixture.open_incident
             None Fixture.resolved_incident
             (Fixture.incident 1 1 "2024-01-01 10:42:30") None Fixture.resolved_incident
             1704103200 None 1704105750 None None Fixture.resolved_incident);
    vm_compute; reflexivity.
Defined.

Lemma resolve_without_incident_is_an_error_at_api :
  (authorized (Fixture.request (Fixture.group "resolved" [Fixture.alert "api"]))
     (Fixture.config true)
   ∧ Status (Fixture.group "resolved" [Fixture.alert "api"]) = "resolved"
   ∧ SquashIncident (Fixture.config true) = true
   ∧ Page.list_components Fixture.healthy [] = ((Fixture.api, None), [])
   ∧ Fixture.loop Fixture.healthy true 1 1 Fixture.api [] ∅ [] = ((None, ∅), [], [])
   ∧ Fixture.api !! label_value (Fixture.config true) (Fixture.alert "api") = Some 42
   ∧ default 0 ((∅ : gmap Z Z) !! 42) = 0
   ∧ Page.search_incidents Fixture.healthy 42 [] = (([], None), []))
  ∧ (Fixture.submit Fixture.healthy true
       (Fixture.group "resolved" [Fixture.alert "api"]) [] =
     (error_response (Sprintf_no_incident 42), [],
      Called CallListComponents None :: [] ++ [Called (CallSearchIncidents 42) None])
     ∧ ∃ l r, Sprintf_no_incident 42 = l +:+ pretty 42 +:+ r).
Proof.
  split; [repeat split; try (vm_compute; reflexivity); by left|].
  apply (resolve_without_incident_is_an_error
           (cachet := Page.client Fixture.healthy) (gotime := Clock.go_time) true
           (Fixture.request (Fixture.group "resolved" [Fixture.alert "api"]))
           (Fixture.config true) (Fixture.group "resolved" [Fixture.alert "api"])
           [] Fixture.api [] [] (Fixture.alert "api") [] ∅ [] [] 42 []);
    try (vm_compute; reflexivity). by left.
Defined.

Lemma no_squash_creates_on_every_delivery_at_api :
  (authorized (Fixture.request (Fixture.group "firing" [Fixture.alert "api"]))
     (Fixture.config false)
   ∧ Status (Fixture.group "firing" [Fixture.alert "api"]) = "firing"
   ∧ SquashIncident (Fixture.config false) = false
   ∧ ∀ b0, ∃ components,
       (Page.list_components Fixture.healthy b0).1 = (components, None)
       ∧ components !! label_value (Fixture.config false) (Fixture.alert "api") = Some 42)
  ∧ ((∀ st cst components fired b0,
        components !! label_value (Fixture.config false) (Fixture.alert "api") = Some 42 →
        default 0 (fired !! 42) = 0 →
        calls (Fixture.body Fixture.healthy false st cst components
                 (Fixture.alert "api") fired b0).2 =
        [(CallCreateIncident (label_value (Fixture.config false) (Fixture.alert "api"))
            42 st cst,
          (Page.create_incident Fixture.healthy
             (label_value (Fixture.config false) (Fixture.alert "api")) 42 st cst b0).1)])
     ∧ (calls (deliveries (Fixture.submit Fixture.healthy false
                 (Fixture.group "firing" [Fixture.alert "api"])) 3 []).2).*1 =
       concat (replicate 3
         [CallListComponents;
          CallCreateIncident (label_value (Fixture.config false) (Fixture.alert "api"))
            42 4 4])
     ∧ creates 42 (deliveries (Fixture.submit Fixture.healthy false
                     (Fixture.group "firing" [Fixture.alert "api"])) 3 []).2 = 3%nat).
Proof.
  assert (∀ b0 : Page.State, ∃ components,
       (Page.list_components Fixture.healthy b0).1 = (components, None)
       ∧ components !! label_value (Fixture.config false) (Fixture.alert "api") = Some 42)
    as Hlisted.
  { intros b0. exists Fixture.api. split; [reflexivity|vm_compute; reflexivity]. }
  split; [repeat split; try (vm_compute; reflexivity); [by left|exact Hlisted]|].
  apply (no_squash_creates_on_every_delivery
           (cachet := Page.client Fixture.healthy) (gotime := Clock.go_time) true
           (Fixture.request (Fixture.group "firing" [Fixture.alert "api"]))
           (Fixture.config false) (Fixture.group "firing" [Fixture.alert "api"])
           (Fixture.alert "api") 42 3 []);
    try (vm_compute; reflexivity); [by left|exact Hlisted].
Defined.


(** * The further properties at concrete requests *)

Lemma wrong_bearer_is_refused_at_guarded :
  (PrometheusToken Sample.guarded ≠ EmptyString
   ∧ GetHeader (Sample.request_with "Bearer wrong"
                  (Fixture.group "firing" [Fixture.alert "api"])) "Authorization"
     ≠ Sprintf_bearer (PrometheusToken Sample.guarded))
  ∧ Sample.submit Fixture.healthy
      (Sample.request_with "Bearer wrong" (Fixture.group "firing" [Fixture.alert "api"]))
      Sample.guarded [] =
    (error_response "wrong Authorization header", [],
     [Logged ["wrong Authorization header:"; "Bearer wrong"]]).
Proof.
  split; [split; discriminate|]. unfold Sample.submit.
  rewrite (wrong_bearer_is_refused (cachet := Page.client Fixture.healthy)
             (gotime := Clock.go_time) true
             (Sample.request_with "Bearer wrong" (Fixture.group "firing" [Fixture.alert "api"]))
             Sample.guarded []); [reflexivity|discriminate|discriminate].
Defined.

Lemma empty_token_disables_the_bearer_check_at_api :
  PrometheusToken (Fixture.config true) = EmptyString
  ∧ Sample.submit Fixture.healthy
      (with_headers (Fixture.request (Fixture.group "firing" [Fixture.alert "api"]))
         (λ _, "Bearer anything"))
      (Fixture.config true) [] =
    Sample.submit Fixture.healthy
      (Fixture.request (Fixture.group "firing" [Fixture.alert "api"]))
      (Fixture.config true) [].
Proof.
  split; [reflexivity|].
  apply (empty_token_disables_the_bearer_check (cachet := Page.client Fixture.healthy)
           (gotime := Clock.go_time) true
           (Fixture.request (Fixture.group "firing" [Fixture.alert "api"]))
           (Fixture.config true) [] (λ _, "Bearer anything")).
  reflexivity.
Defined.

Lemma unbound_payload_is_refused_at_invalid_json :
  (authorized (Sample.unbound "invalid character") (Fixture.config true)
   ∧ ShouldBindJSON (Sample.unbound "invalid character") =
     (Fixture.group EmptyString [], Some "invalid character"))
  ∧ Sample.submit Fixture.healthy (Sample.unbound "invalid character")
      (Fixture.config true) [] =
    (error_response "invalid character", [], []).
Proof.
  split; [split; [by left|reflexivity]|]. unfold Sample.submit.
  rewrite (unbound_payload_is_refused (cachet := Page.client Fixture.healthy)
             (gotime := Clock.go_time) true (Sample.unbound "invalid character")
             (Fixture.config true) [] (Fixture.group EmptyString []) "invalid character");
    [reflexivity|by left|reflexivity].
Defined.

Lemma failed_listing_is_answered_at_once_at_api :
  (authorized (Fixture.request (Fixture.group "firing" [Fixture.alert "api"]))
     (Fixture.config true)
   ∧ Page.list_components Sample.list_fails [] = ((∅, Some "list failed"), []))
  ∧ Sample.submit Sample.list_fails
      (Fixture.request (Fixture.group "firing" [Fixture.alert "api"]))
      (Fixture.config true) [] =
    (error_response "list failed", [],
     [Called CallListComponents (Some "list failed")]).
Proof.
  split; [split; [by left|reflexivity]|]. unfold Sample.submit.
  rewrite (failed_listing_is_answered_at_once (cachet := Page.client Sample.list_fails)
             (gotime := Clock.go_time) true
             (Fixture.request (Fixture.group "firing" [Fixture.alert "api"]))
             (Fixture.config true) [] (Fixture.group "firing" [Fixture.alert "api"])
             ∅ "list failed" []);
    [reflexivity|by left|reflexivity|reflexivity].
Defined.

Lemma batch_without_known_component_is_ok_at_db :
  (authorized (Fixture.request (Fixture.group "firing" [Fixture.alert "db"]))
     (Fixture.config true)
   ∧ Page.list_components Fixture.healthy Fixture.open_incident =
     ((Fixture.api, None), Fixture.open_incident)
   ∧ ∀ alert, alert ∈ [Fixture.alert "db"] →
       Fixture.api !! label_value (Fixture.config true) alert = None)
  ∧ Sample.submit Fixture.healthy
      (Fixture.request (Fixture.group "firing" [Fixture.alert "db"]))
      (Fixture.config true) Fixture.open_incident =
    (ok_response, Fixture.open_incident, [Called CallListComponents None]).
Proof.
  assert (∀ alert, alert ∈ [Fixture.alert "db"] →
            Fixture.api !! label_value (Fixture.config true) alert = None) as Hnone.
  { intros alert Hin. apply list_elem_of_singleton in Hin. subst alert.
    vm_compute; reflexivity. }
  split; [split; [by left|split; [reflexivity|exact Hnone]]|].
  apply (batch_without_known_component_is_ok (cachet := Page.client Fixture.healthy)
           (gotime := Clock.go_time) true
           (Fixture.request (Fixture.group "firing" [Fixture.alert "db"]))
           (Fixture.config true) Fixture.open_incident
           (Fixture.group "firing" [Fixture.alert "db"]) Fixture.api
           Fixture.open_incident);
    [by left|reflexivity|reflexivity|exact Hnone].
Defined.

Lemma ok_answer_means_clean_run_at_api :
  Sample.submit Fixture.healthy
    (Fixture.request (Fixture.group "firing" [Fixture.alert "api"]))
    (Fixture.config true) [] =
  (ok_response, Fixture.open_incident,
   [Called CallListComponents None;
    Called (CallSearchIncidents 42) None;
    Called (CallCreateIncident "api" 42 4 4) None])
  ∧ (authorized (Fixture.request (Fixture.group "firing" [Fixture.alert "api"]))
       (Fixture.config true)
     ∧ (ShouldBindJSON (Fixture.request
          (Fixture.group "firing" [Fixture.alert "api"]))).2 = None
     ∧ (∃ t', [Called CallListComponents None;
               Called (CallSearchIncidents 42) None;
               Called (CallCreateIncident "api" 42 4 4) None] =
              Called CallListComponents None :: t')
     ∧ quiet [Called CallListComponents None;
              Called (CallSearchIncidents 42) None;
              Called (CallCreateIncident "api" 42 4 4) None]
     ∧ unlogged [Called CallListComponents None;
                 Called (CallSearchIncidents 42) None;
                 Called (CallCreateIncident "api" 42 4 4) None]).
Proof.
  split; [vm_compute; reflexivity|].
  apply (ok_answer_means_clean_run (cachet := Page.client Fixture.healthy)
           (gotime := Clock.go_time) true
           (Fixture.request (Fixture.group "firing" [Fixture.alert "api"]))
           (Fixture.config true) [] Fixture.open_incident).
  vm_compute; reflexivity.
Defined.

Lemma answers_and_their_causes_at_missing_incident :
  Sample.submit Fixture.healthy
    (Fixture.request (Fixture.group "resolved" [Fixture.alert "api"]))
    (Fixture.config true) [] =
  (error_response (Sprintf_no_incident 42), [],
   [Called CallListComponents None; Called (CallSearchIncidents 42) None])
  ∧ (error_response (Sprintf_no_incident 42) = ok_response
     ∨ ∃ e, error_response (Sprintf_no_incident 42) = error_response e
         ∧ ((¬ authorized (Fixture.request (Fixture.group "resolved" [Fixture.alert "api"]))
                 (Fixture.config true)
             ∧ e = "wrong Authorization header"
             ∧ calls [Called CallListComponents None;
                      Called (CallSearchIncidents 42) None] = [])
            ∨ ((ShouldBindJSON (Fixture.request
                  (Fixture.group "resolved" [Fixture.alert "api"]))).2 = Some e
               ∧ calls [Called CallListComponents None;
                        Called (CallSearchIncidents 42) None] = [])
            ∨ ends_with_failure e
                [Called CallListComponents None; Called (CallSearchIncidents 42) None]
            ∨ (ends_with_empty_search e
                 [Called CallListComponents None; Called (CallSearchIncidents 42) None]
               ∧ SquashIncident (Fixture.config true) = true
               ∧ Status (ShouldBindJSON (Fixture.request
                   (Fixture.group "resolved" [Fixture.alert "api"]))).1 ≠ "firing"))).
Proof.
  split; [vm_compute; reflexivity|].
  apply (answers_and_their_causes (cachet := Page.client Fixture.healthy)
           (gotime := Clock.go_time) true
           (Fixture.request (Fixture.group "resolved" [Fixture.alert "api"]))
           (Fixture.config true) [] (error_response (Sprintf_no_incident 42)) []).
  vm_compute; reflexivity.
Defined.

Lemma nothing_is_logged_below_debug_at_failed_create :
  LogLevel (Fixture.config true) ≠ true
  ∧ unlogged (Sample.submit Fixture.create_fails
                (Fixture.request (Fixture.group "firing" [Fixture.alert "api"]))
                (Fixture.config true) []).2.
Proof.
  split; [discriminate|].
  apply (nothing_is_logged_below_debug (cachet := Page.client Fixture.create_fails)
           (gotime := Clock.go_time) true
           (Fixture.request (Fixture.group "firing" [Fixture.alert "api"]))
           (Fixture.config true) []).
  discriminate.
Defined.

Lemma ok_answer_handles_each_component_once_at_api :
  Sample.submit Fixture.healthy
    (Fixture.request (Fixture.group "firing"
       [Fixture.alert "api"; Fixture.alert "db"; Fixture.alert "api"]))
    (Fixture.config true) [] =
  (ok_response, Fixture.open_incident,
   [Called CallListComponents None;
    Called (CallSearchIncidents 42) None;
    Called (CallCreateIncident "api" 42 4 4) None])
  ∧ (if SquashIncident (Fixture.config true)
     then searches 42
            [Called CallListComponents None;
             Called (CallSearchIncidents 42) None;
             Called (CallCreateIncident "api" 42 4 4) None]
     else creates 42
            [Called CallListComponents None;
             Called (CallSearchIncidents 42) None;
             Called (CallCreateIncident "api" 42 4 4) None]) =
    if decide (42 ∈ resolved (Fixture.config true)
                      (Page.list_components Fixture.healthy []).1.1
                      [Fixture.alert "api"; Fixture.alert "db"; Fixture.alert "api"])
    then 1%nat else 0%nat.
Proof.
  split; [vm_compute; reflexivity|].
  apply (ok_answer_handles_each_component_once (cachet := Page.client Fixture.healthy)
           (gotime := Clock.go_time) true
           (Fixture.request (Fixture.group "firing"
              [Fixture.alert "api"; Fixture.alert "db"; Fixture.alert "api"]))
           (Fixture.config true) [] Fixture.open_incident
           [Called CallListComponents None;
            Called (CallSearchIncidents 42) None;
            Called (CallCreateIncident "api" 42 4 4) None] 42).
  vm_compute; reflexivity.
Defined.

Lemma already_fired_marks_the_resolved_components_at_api :
  Fixture.loop Fixture.healthy false 4 4 Fixture.api
    [Fixture.alert "db"; Fixture.alert "api"] ∅ [] =
  ((None, {[ 42 := 1 ]}), Fixture.open_incident,
   [Called (CallCreateIncident "api" 42 4 4) None])
  ∧ (default 0 (({[ 42 := 1 ]} : gmap Z Z) !! 42) ≠ 0 ↔
     default 0 ((∅ : gmap Z Z) !! 42) ≠ 0
     ∨ 42 ∈ resolved (Fixture.config false) Fixture.api
              [Fixture.alert "db"; Fixture.alert "api"]).
Proof.
  split; [vm_compute; reflexivity|].
  apply (already_fired_marks_the_resolved_components
           (cachet := Page.client Fixture.healthy) (gotime := Clock.go_time) true
           (Fixture.config false) 4 4 Fixture.api
           [Fixture.alert "db"; Fixture.alert "api"] ∅ []
           {[ 42 := 1 ]} Fixture.open_incident
           [Called (CallCreateIncident "api" 42 4 4) None] 42).
  vm_compute; reflexivity.
Defined.
